(** * LC-3 virtual machine (lc3.c): a shallow embedding and its properties

    The interpreter of [lc3.c] is embedded as a state-and-error monad over a
    record holding the two global arrays of the program ([memory] and [reg])
    and the two byte streams of the console.  Words are [uint16_t] in the
    source; here they are integers of [Z], and every place where C converts
    an [int] result back to [uint16_t] is written out with [u16].

    [lc3.c] includes utils.c ([mem_read], [mem_write], the terminal) and
    leaves five TRAP handlers as placeholders; those parts follow the
    specification and are marked as such. *)

From Stdlib Require Import ZArith Lia Bool.
From stdpp Require Import base list.

Open Scope Z_scope.

(** ** Constants of the source *)

Module Consts.

(* enum { TRAP_GETC = 0x20, ... } *)
Definition TRAP_GETC : Z := 0x20.
Definition TRAP_OUT : Z := 0x21.
Definition TRAP_PUTS : Z := 0x22.
Definition TRAP_IN : Z := 0x23.
Definition TRAP_PUTSP : Z := 0x24.
Definition TRAP_HALT : Z := 0x25.

(* #define MEMORY_MAX (1 << 16) *)
Definition MEMORY_MAX : Z := Z.shiftl 1 16.

(* enum { R_R0 = 0, ..., R_PC, R_COND, R_COUNT } *)
Definition R_R0 : Z := 0.
Definition R_R1 : Z := 1.
Definition R_R2 : Z := 2.
Definition R_R3 : Z := 3.
Definition R_R4 : Z := 4.
Definition R_R5 : Z := 5.
Definition R_R6 : Z := 6.
Definition R_R7 : Z := 7.
Definition R_PC : Z := 8.
Definition R_COND : Z := 9.
Definition R_COUNT : Z := 10.

(* enum { FL_POS = 1 << 0, FL_ZRO = 1 << 1, FL_NEG = 1 << 2 } *)
Definition FL_POS : Z := Z.shiftl 1 0.
Definition FL_ZRO : Z := Z.shiftl 1 1.
Definition FL_NEG : Z := Z.shiftl 1 2.

(* enum { OP_BR = 0, OP_ADD, ... , OP_TRAP } *)
Definition OP_BR : Z := 0.
Definition OP_ADD : Z := 1.
Definition OP_LD : Z := 2.
Definition OP_ST : Z := 3.
Definition OP_JSR : Z := 4.
Definition OP_AND : Z := 5.
Definition OP_LDR : Z := 6.
Definition OP_STR : Z := 7.
Definition OP_RTI : Z := 8.
Definition OP_NOT : Z := 9.
Definition OP_LDI : Z := 10.
Definition OP_STI : Z := 11.
Definition OP_JMP : Z := 12.
Definition OP_RES : Z := 13.
Definition OP_LEA : Z := 14.
Definition OP_TRAP : Z := 15.

(* #define R_BITMASK 0x7 / #define BOOL_BITMASK 0x1 *)
Definition R_BITMASK : Z := 0x7.
Definition BOOL_BITMASK : Z := 0x1.

(* enum { PC_START = 0x3000 } *)
Definition PC_START : Z := 0x3000.

(** Modelled from the spec: the addresses of the memory-mapped keyboard
    registers are declared in utils.c, which is not part of the sources at
    hand; section 3 of the specification gives KBSR = 0xFE00 and
    KBDR = 0xFE02. *)
Definition MR_KBSR : Z := 0xFE00.
Definition MR_KBDR : Z := 0xFE02.

End Consts.
Import Consts.

(** ** Machine state *)

(** [memory] and [reg] are the two global arrays; [stdin] is the sequence of
    bytes the keyboard still has to deliver and [stdout] the sequence of bytes
    written to the console so far; [running] is the loop variable of [main]. *)
Record machine : Type := Machine {
  memory : list Z;
  reg : list Z;
  stdin : list Z;
  stdout : list Z;
  running : bool
}.

Definition set_memory (m : list Z) (s : machine) : machine :=
  Machine m (reg s) (stdin s) (stdout s) (running s).
Definition set_reg (r : list Z) (s : machine) : machine :=
  Machine (memory s) r (stdin s) (stdout s) (running s).
Definition set_stdin (i : list Z) (s : machine) : machine :=
  Machine (memory s) (reg s) i (stdout s) (running s).
Definition set_stdout (o : list Z) (s : machine) : machine :=
  Machine (memory s) (reg s) (stdin s) o (running s).
Definition set_running (b : bool) (s : machine) : machine :=
  Machine (memory s) (reg s) (stdin s) (stdout s) b.

(** Conversion of an [int] value to [uint16_t]. *)
Definition u16 (x : Z) : Z := x mod 2 ^ 16.

(** An [int] result that leaves the 32 bits of an [int], kept modulo 2^32 in
    two's complement. *)
Definition int32 (x : Z) : Z := (x + 2 ^ 31) mod 2 ^ 32 - 2 ^ 31.

(** ** The monad of the interpreter

    A computation either continues with a value and a state, reaches
    [abort()], or indexes an array outside its bounds, for which C defines no
    behaviour. *)
Inductive result (A : Type) : Type :=
| Ok (a : A) (s : machine)
| Aborted (s : machine)
| Undefined.
Arguments Ok {A} a s.
Arguments Aborted {A} s.
Arguments Undefined {A}.

Definition M (A : Type) : Type := machine -> result A.

Definition ret {A} (a : A) : M A := fun s => Ok a s.

Definition bind {A B} (m : M A) (k : A -> M B) : M B :=
  fun s =>
    match m s with
    | Ok a s' => k a s'
    | Aborted s' => Aborted s'
    | Undefined => Undefined
    end.

#[global] Instance M_ret : MRet M := @ret.
#[global] Instance M_bind : MBind M := fun A B k m => bind m k.

Definition abort {A} : M A := fun s => Aborted s.
Definition undefined {A} : M A := fun _ => Undefined.

(** [a[i]] and [a[i] = v] on the two arrays.  An index outside the array has
    no defined behaviour; a list lookup answers [None] there, while a list
    update would silently do nothing, hence the explicit test in the stores. *)
Definition in_bounds {A} (i : Z) (a : list A) : bool :=
  (0 <=? i) && (i <? Z.of_nat (length a)).

Definition load_reg (i : Z) : M Z :=
  fun s =>
    if i <? 0 then Undefined
    else match reg s !! Z.to_nat i with
         | Some v => Ok v s
         | None => Undefined
         end.

Definition write_reg (i v : Z) (s : machine) : machine :=
  set_reg (<[Z.to_nat i := v]> (reg s)) s.

Definition store_reg (i v : Z) : M unit :=
  fun s => if in_bounds i (reg s) then Ok tt (write_reg i v s) else Undefined.

Definition load_mem (i : Z) : M Z :=
  fun s =>
    if i <? 0 then Undefined
    else match memory s !! Z.to_nat i with
         | Some v => Ok v s
         | None => Undefined
         end.

Definition write_mem (i v : Z) (s : machine) : machine :=
  set_memory (<[Z.to_nat i := v]> (memory s)) s.

Definition store_mem (i v : Z) : M unit :=
  fun s => if in_bounds i (memory s) then Ok tt (write_mem i v s) else Undefined.

(** [putc(b, stdout)]: one more byte on the console. *)
Definition putc (b : Z) : M unit :=
  fun s => Ok tt (set_stdout (stdout s ++ [b]) s).

(** ** sign_extend and update_flags *)

(** [uint16_t sign_extend(uint16_t x, int bit_count)].  The operands of [>>],
    [&], [<<] and [|] are promoted to [int]; the assignment [x |= ...] converts
    the result back to [uint16_t].  [0xFFFF << bit_count] stays within an
    [int] up to a count of 15 and reaches bit 31 for a count of 16. *)
Definition sign_extend (x bit_count : Z) : Z :=
  if Z.land (Z.shiftr x (bit_count - 1)) 1 =? 0 then x
  else u16 (Z.lor x (int32 (Z.shiftl 0xFFFF bit_count))).

(** [void update_flags(uint16_t r)] *)
Definition update_flags (r : Z) : M unit :=
  v ← load_reg r;
  if v =? 0 then store_reg R_COND FL_ZRO
  else
    v' ← load_reg r;
    if negb (Z.shiftr v' 15 =? 0) then store_reg R_COND FL_NEG
    else store_reg R_COND FL_POS.

(** ** Parts of the program that are not in lc3.c *)

(** Modelled from the spec: the terminal adapter lives in utils.c, which is
    not part of the sources at hand.  Section 4.3 of the specification gives
    [key_ready], a probe telling whether at least one byte is available. *)
Definition key_ready : M bool :=
  fun s => Ok (match stdin s with [] => false | _ :: _ => true end) s.

(** Modelled from the spec: [read_byte] of utils.c, missing from the sources
    at hand, takes the next byte of the keyboard (section 4.3); at the end of
    the input the guest sees a zero byte (section 7, item 5). *)
Definition read_byte : M Z :=
  fun s =>
    match stdin s with
    | [] => Ok 0 s
    | b :: rest => Ok b (set_stdin rest s)
    end.

(** Modelled from the spec: [mem_write] of utils.c, missing from the sources
    at hand, is an unconditional store (section 4.1).  Memory is indexed by a
    16-bit address (section 3): where a caller passes an [int] sum, the
    conversion to that type is written with [u16] at the call. *)
Definition mem_write (addr val : Z) : M unit := store_mem addr val.

(** Modelled from the spec: [mem_read] of utils.c, missing from the sources at
    hand.  Section 4.1: if [addr] is KBSR, poll the terminal adapter; if a key
    is ready set KBSR to 0x8000 and load KBDR with the byte, else set KBSR to
    0; then return [memory[addr]].  The address is a 16-bit word, as for
    [mem_write]. *)
Definition mem_read (addr : Z) : M Z :=
  (if addr =? MR_KBSR then
     ready ← key_ready;
     if ready : bool then
       store_mem MR_KBSR 0x8000;;
       b ← read_byte;
       store_mem MR_KBDR b
     else store_mem MR_KBSR 0
   else mret tt);;
  load_mem addr.

(** Modelled from the spec: the handler of TRAP GETC is a placeholder in
    lc3.c.  Section 4.5: read a byte, store it in R0, update flags on R0. *)
Definition trap_getc : M unit :=
  b ← read_byte;
  store_reg R_R0 b;;
  update_flags R_R0.

(** Modelled from the spec: the handler of TRAP OUT is a placeholder in
    lc3.c.  Section 4.5: write the low byte of R0 to stdout. *)
Definition trap_out : M unit :=
  r0 ← load_reg R_R0;
  putc (r0 mod 256).

(** Modelled from the spec: the handler of TRAP IN is a placeholder in lc3.c.
    Section 4.5: prompt the user, read one byte with echo, store it in R0,
    update flags.  The text of the prompt is the one the specification quotes,
    as character codes. *)
Definition in_prompt : list Z :=
  [69; 110; 116; 101; 114; 32; 97; 32; 99; 104; 97; 114; 97; 99; 116; 101; 114;
   58; 32].

Fixpoint put_bytes (bs : list Z) : M unit :=
  match bs with
  | [] => mret tt
  | b :: bs' => putc b;; put_bytes bs'
  end.

Definition trap_in : M unit :=
  put_bytes in_prompt;;
  b ← read_byte;
  putc b;;
  store_reg R_R0 b;;
  update_flags R_R0.

(** Modelled from the spec: the handler of TRAP PUTSP is a placeholder in
    lc3.c.  Section 4.5: starting at [memory[R0]], for each nonzero word write
    the low byte then, if nonzero, the high byte, until a zero word.  [left]
    counts the words between the cursor and the end of the array. *)
Fixpoint putsp_loop (left : nat) (c : Z) : M unit :=
  match left with
  | O => undefined
  | S left' =>
      w ← load_mem c;
      if w =? 0 then mret tt
      else
        putc (Z.land w 0xFF);;
        (if Z.shiftr w 8 =? 0 then mret tt else putc (Z.shiftr w 8));;
        putsp_loop left' (c + 1)
  end.

Definition trap_putsp : M unit :=
  r0 ← load_reg R_R0;
  putsp_loop (Z.to_nat MEMORY_MAX) r0.

(** Modelled from the spec: the handler of TRAP HALT is a placeholder in
    lc3.c.  Section 4.5: write a banner and terminate the interpreter loop.
    The specification leaves the text of the banner open; it is "HALT" and a
    line feed here. *)
Definition halt_banner : list Z := [72; 65; 76; 84; 10].

Definition stop_running : M unit := fun s => Ok tt (set_running false s).

Definition trap_halt : M unit :=
  put_bytes halt_banner;;
  stop_running.

(** ** The cases of the opcode switch of [main] *)

(** Fields of an instruction word, as [(instr >> k) & mask]. *)
Definition field (instr k mask : Z) : Z := Z.land (Z.shiftr instr k) mask.

(* case OP_ADD *)
Definition op_add (instr : Z) : M unit :=
  let r0 := field instr 9 R_BITMASK in
  let r1 := field instr 6 R_BITMASK in
  let imm_flag := field instr 5 BOOL_BITMASK in
  (if negb (imm_flag =? 0) then
     let imm5 := sign_extend (Z.land instr 0x1F) 5 in
     v1 ← load_reg r1;
     store_reg r0 (u16 (v1 + imm5))
   else
     let r2 := Z.land instr R_BITMASK in
     v1 ← load_reg r1;
     v2 ← load_reg r2;
     store_reg r0 (u16 (v1 + v2)));;
  update_flags r0.

(* case OP_AND *)
Definition op_and (instr : Z) : M unit :=
  let r0 := field instr 9 R_BITMASK in
  let r1 := field instr 6 R_BITMASK in
  let imm_flag := field instr 5 BOOL_BITMASK in
  (if negb (imm_flag =? 0) then
     let imm5 := sign_extend (Z.land instr 0x1F) 5 in
     v1 ← load_reg r1;
     store_reg r0 (u16 (Z.land v1 imm5))
   else
     let r2 := Z.land instr R_BITMASK in
     v1 ← load_reg r1;
     v2 ← load_reg r2;
     store_reg r0 (u16 (Z.land v1 v2)));;
  update_flags r0.

(* case OP_NOT: the operand of [~] is the local [r1], the register number *)
Definition op_not (instr : Z) : M unit :=
  let r0 := field instr 9 R_BITMASK in
  let r1 := field instr 6 R_BITMASK in
  store_reg r0 (u16 (Z.lnot r1));;
  update_flags r0.

(* case OP_BR *)
Definition op_br (instr : Z) : M unit :=
  let n := field instr 11 BOOL_BITMASK in
  let z := field instr 10 BOOL_BITMASK in
  let p := field instr 9 BOOL_BITMASK in
  cond ← load_reg R_COND;
  if (negb (n =? 0) && (cond =? FL_NEG))
     || (negb (z =? 0) && (cond =? FL_ZRO))
     || (negb (p =? 0) && (cond =? FL_POS))
  then
    let pc_offset := sign_extend (Z.land instr 0x1FF) 9 in
    pc ← load_reg R_PC;
    store_reg R_PC (u16 (pc + pc_offset))
  else mret tt.

(* case OP_JMP *)
Definition op_jmp (instr : Z) : M unit :=
  let base_r := field instr 6 R_BITMASK in
  b ← load_reg base_r;
  store_reg R_PC b.

(* case OP_JSR *)
Definition op_jsr (instr : Z) : M unit :=
  pc ← load_reg R_PC;
  store_reg R_R7 pc;;
  let flag := field instr 11 BOOL_BITMASK in
  if flag =? 0 then
    let base_r := field instr 6 R_BITMASK in
    b ← load_reg base_r;
    store_reg R_PC b
  else
    let pc_offset := sign_extend (Z.land instr 0x7FF) 11 in
    r7 ← load_reg R_R7;
    store_reg R_PC (u16 (pc_offset + r7)).

(* case OP_LD *)
Definition op_ld (instr : Z) : M unit :=
  let r0 := field instr 9 R_BITMASK in
  let pc_offset := sign_extend (Z.land instr 0x1FF) 9 in
  pc ← load_reg R_PC;
  v ← mem_read (u16 (pc + pc_offset));
  store_reg r0 v;;
  update_flags r0.

(* case OP_LDI *)
Definition op_ldi (instr : Z) : M unit :=
  let r0 := field instr 9 R_BITMASK in
  let pc_offset := sign_extend (Z.land instr 0x1FF) 9 in
  pc ← load_reg R_PC;
  a ← mem_read (u16 (pc + pc_offset));
  v ← mem_read a;
  store_reg r0 v;;
  update_flags r0.

(* case OP_LDR *)
Definition op_ldr (instr : Z) : M unit :=
  let r0 := field instr 9 R_BITMASK in
  let base_r := field instr 6 R_BITMASK in
  let offset := sign_extend (Z.land instr 0x3F) 6 in
  b ← load_reg base_r;
  v ← mem_read (u16 (b + offset));
  store_reg r0 v;;
  update_flags r0.

(* case OP_LEA *)
Definition op_lea (instr : Z) : M unit :=
  let r0 := field instr 9 R_BITMASK in
  let pc_offset := sign_extend (Z.land instr 0x1FF) 9 in
  pc ← load_reg R_PC;
  store_reg r0 (u16 (pc + pc_offset));;
  update_flags r0.

(* case OP_ST: the value handed to mem_write is the local [sr], the register
   number *)
Definition op_st (instr : Z) : M unit :=
  let sr := field instr 9 R_BITMASK in
  let pc_offset := sign_extend (Z.land instr 0x1FF) 9 in
  pc ← load_reg R_PC;
  mem_write (u16 (pc + pc_offset)) sr.

(* case OP_STI: the subscript of [reg] is [R_PC + pc_offset] *)
Definition op_sti (instr : Z) : M unit :=
  let sr := field instr 9 R_BITMASK in
  let pc_offset := sign_extend (Z.land instr 0x1FF) 9 in
  x ← load_reg (R_PC + pc_offset);
  a ← mem_read x;
  v ← load_reg sr;
  mem_write a v.

(* case OP_STR: the value handed to mem_write is the local [sr], the register
   number *)
Definition op_str (instr : Z) : M unit :=
  let sr := field instr 9 R_BITMASK in
  let base_r := field instr 6 R_BITMASK in
  let offset := sign_extend (Z.land instr 0x3F) 6 in
  b ← load_reg base_r;
  mem_write (u16 (b + offset)) sr.

(** The loop of TRAP PUTS: [uint16_t* c = memory + reg[R_R0]; while ( *c )
    { putc((char)*c, stdout); ++c; }].  The cursor is kept as an index into
    [memory]; [left] bounds the number of iterations and is started at the
    size of the array, after which the cursor is past its end anyway.  [putc]
    writes its argument as one byte, the low byte of the word. *)
Fixpoint puts_loop (left : nat) (c : Z) : M unit :=
  match left with
  | O => undefined
  | S left' =>
      w ← load_mem c;
      if w =? 0 then mret tt
      else
        putc (w mod 256);;
        puts_loop left' (c + 1)
  end.

(* case TRAP_PUTS; fflush leaves the sequence of written bytes as it is *)
Definition trap_puts : M unit :=
  r0 ← load_reg R_R0;
  puts_loop (Z.to_nat MEMORY_MAX) r0.

(** [case OP_TRAP]: the inner switch on [instr & 0xFF].  Every handler ends in
    a [break] that leaves the inner switch only; no [break] follows the inner
    switch, so control goes on into [case OP_RES: case OP_RTI: default:] and
    reaches [abort()]. *)
Definition op_trap (instr : Z) : M unit :=
  pc ← load_reg R_PC;
  store_reg R_R7 pc;;
  let vector := Z.land instr 0xFF in
  (if vector =? TRAP_GETC then trap_getc
   else if vector =? TRAP_OUT then trap_out
   else if vector =? TRAP_PUTS then trap_puts
   else if vector =? TRAP_IN then trap_in
   else if vector =? TRAP_PUTSP then trap_putsp
   else if vector =? TRAP_HALT then trap_halt
   else mret tt);;
  abort.

(** [switch (op)] of the main loop, with [op = instr >> 12]. *)
Definition exec_instr (instr : Z) : M unit :=
  let op := Z.shiftr instr 12 in
  if op =? OP_ADD then op_add instr
  else if op =? OP_AND then op_and instr
  else if op =? OP_NOT then op_not instr
  else if op =? OP_BR then op_br instr
  else if op =? OP_JMP then op_jmp instr
  else if op =? OP_JSR then op_jsr instr
  else if op =? OP_LD then op_ld instr
  else if op =? OP_LDI then op_ldi instr
  else if op =? OP_LDR then op_ldr instr
  else if op =? OP_LEA then op_lea instr
  else if op =? OP_ST then op_st instr
  else if op =? OP_STI then op_sti instr
  else if op =? OP_STR then op_str instr
  else if op =? OP_TRAP then op_trap instr
  else abort.

(** [uint16_t instr = mem_read(reg[R_PC]++);] *)
Definition fetch : M Z :=
  pc ← load_reg R_PC;
  store_reg R_PC (u16 (pc + 1));;
  mem_read pc.

(** One turn of [while (running)]. *)
Definition step : M unit :=
  instr ← fetch;
  exec_instr instr.

(** At most [n] turns of the loop. *)
Fixpoint run (n : nat) : M unit :=
  match n with
  | O => mret tt
  | S n' => fun s => if running s then (step;; run n') s else Ok tt s
  end.

(** The state in which [main] enters the loop, for a memory filled by the
    image loader: the registers are zero-initialised globals, then
    [reg[R_COND] = FL_ZRO; reg[R_PC] = PC_START; running = 1]. *)
Definition boot (image : list Z) (input : list Z) : machine :=
  Machine image [0; 0; 0; 0; 0; 0; 0; 0; PC_START; FL_ZRO] input [] true.

(** [place origin ws m]: the memory [m] with the words [ws] stored from
    address [origin] on, as the image loader leaves them. *)
Fixpoint place (origin : Z) (ws : list Z) (m : list Z) : list Z :=
  match ws with
  | [] => m
  | w :: ws' => place (origin + 1) ws' (<[Z.to_nat origin := w]> m)
  end.

(** The zero-initialised array [memory]. *)
Definition blank : list Z := replicate (Z.to_nat MEMORY_MAX) 0.

(** ** Reading a state *)

(** The word in register [i] and the word at address [a], when there is one. *)
Definition R (s : machine) (i : Z) : option Z := reg s !! Z.to_nat i.
Definition mem (s : machine) (a : Z) : option Z := memory s !! Z.to_nat a.

(** The words of [memory] from address [a] up to, and without, address [b]. *)
Definition words (s : machine) (a b : Z) : list Z :=
  take (Z.to_nat (b - a)) (drop (Z.to_nat a) (memory s)).

(** ** Well-formed states *)

Definition is_word (x : Z) : bool := (0 <=? x) && (x <? 2 ^ 16).
Definition is_byte (x : Z) : bool := (0 <=? x) && (x <? 2 ^ 8).

(** Both arrays have their declared sizes and hold [uint16_t] values; the
    keyboard delivers bytes. *)
Definition wf (s : machine) : bool :=
  (Z.of_nat (length (memory s)) =? MEMORY_MAX)
  && (Z.of_nat (length (reg s)) =? R_COUNT)
  && forallb is_word (memory s)
  && forallb is_word (reg s)
  && forallb is_byte (stdin s).

Definition well_formed (s : machine) : Prop := wf s = true.

(** Number of bits set among the sixteen bits of a word. *)
Definition popcount (x : Z) : Z :=
  fold_right (fun i acc => Z.b2z (Z.testbit x (Z.of_nat i)) + acc) 0 (seq 0 16).

Definition is_flag (c : Z) : Prop := c = FL_NEG \/ c = FL_ZRO \/ c = FL_POS.

(** COND holds one of the three flags, hence exactly one bit. *)
Definition cond_ok (s : machine) : Prop :=
  exists c, R s R_COND = Some c /\ is_flag c /\ popcount c = 1.

(** [keeps I m]: whenever [m] ends in a state, by continuing or by reaching
    [abort()], that state satisfies [I] if the initial one did. *)
Definition keeps {A} (I : machine -> Prop) (m : M A) : Prop :=
  forall s, I s ->
    match m s with
    | Ok _ s' => I s'
    | Aborted s' => I s'
    | Undefined => True
    end.

(** [hoare P m Q]: from a state satisfying [P], [m] continues, with a value
    and a state related by [Q]. *)
Definition hoare {A} (P : machine -> Prop) (m : M A)
    (Q : A -> machine -> Prop) : Prop :=
  forall s, P s -> exists a s', m s = Ok a s' /\ Q a s'.

(** The flag for the sign of a word read as a two's-complement number. *)
Definition sign_flag (v : Z) : Z :=
  if v =? 0 then FL_ZRO else if 2 ^ 15 <=? v then FL_NEG else FL_POS.

(** The opcodes whose case calls [update_flags]. *)
Definition updates_flags (op : Z) : bool :=
  (op =? OP_ADD) || (op =? OP_AND) || (op =? OP_NOT) || (op =? OP_LD)
  || (op =? OP_LDI) || (op =? OP_LDR) || (op =? OP_LEA).

(** Equality of states and of results is decidable, so that a closed equation
    between results can be settled by evaluation. *)
#[global] Instance machine_eq_dec : EqDecision machine.
Proof. solve_decision. Defined.

#[global] Instance result_eq_dec {A} `{EqDecision A} : EqDecision (result A).
Proof. solve_decision. Defined.

Ltac by_evaluation := apply (bool_decide_unpack _); vm_compute; exact I.

(** ** Sample states *)

(** R1 = 0x00FF, otherwise as [main] enters the loop; for NOT R0, R1
    (0x907F). *)
Definition not_input : machine := write_reg R_R1 0x00FF (boot blank []).

(** An image with STI R0, #1 (0xB001) at 0x3000, the pointer 0x4000 in the
    slot 0x3002 = PC + 1, and the word 0x5000 at address 2; R0 = 0xABCD. *)
Definition sti_input : machine :=
  write_reg R_R0 0xABCD
    (boot (place 2 [0x5000] (place 0x3000 [0xB001; 0; 0x4000] blank)) []).

(** An image with ST R1, #1 (0x3201) at 0x3000 and LD R2, #0 (0x2400) at
    0x3001, both addressing 0x3002; R1 = 0x1234. *)
Definition st_ld_input : machine :=
  write_reg R_R1 0x1234 (boot (place 0x3000 [0x3201; 0x2400] blank) []).

(** R1 = 0x1234 and R2 = 0x4000; for STR R1, R2, #0 (0x7280). *)
Definition str_input : machine :=
  write_reg R_R2 0x4000 (write_reg R_R1 0x1234 (boot blank [])).

(** An image with TRAP 0xFF (0xF0FF) at 0x3000. *)
Definition trap_input : machine := boot (place 0x3000 [0xF0FF] blank) [].

(** ** Notions for the remaining cases of the switch *)

(** The value of the low [n] bits [v] read as a two's-complement number. *)
Definition signed (v n : Z) : Z :=
  if Z.testbit v (n - 1) then v - 2 ^ n else v.

(** The test of [case OP_BR] on the bits n, z, p of the instruction and the
    value [c] of COND. *)
Definition br_taken (instr c : Z) : bool :=
  (Z.testbit instr 11 && (c =? FL_NEG))
  || (Z.testbit instr 10 && (c =? FL_ZRO))
  || (Z.testbit instr 9 && (c =? FL_POS)).

(** [partial P m Q E]: from a state satisfying [P], if [m] continues it does
    so with a value and a state related by [Q], and if it reaches [abort()]
    the state satisfies [E]. *)
Definition partial {A} (P : machine -> Prop) (m : M A)
    (Q : A -> machine -> Prop) (E : machine -> Prop) : Prop :=
  forall s, P s ->
    match m s with
    | Ok a s' => Q a s'
    | Aborted s' => E s'
    | Undefined => True
    end.

(** The opcodes whose case touches [reg] only. *)
Definition register_only (op : Z) : bool :=
  (op =? OP_ADD) || (op =? OP_AND) || (op =? OP_NOT) || (op =? OP_BR)
  || (op =? OP_JMP) || (op =? OP_JSR) || (op =? OP_LEA).

(** The three store opcodes. *)
Definition is_store (op : Z) : bool :=
  (op =? OP_ST) || (op =? OP_STI) || (op =? OP_STR).

(** The opcodes whose case ends in [break] and subscripts both arrays with
    masked or converted indices only. *)
Definition always_continues (op : Z) : bool :=
  (op =? OP_ADD) || (op =? OP_AND) || (op =? OP_NOT) || (op =? OP_BR)
  || (op =? OP_JMP) || (op =? OP_JSR) || (op =? OP_LD) || (op =? OP_LDI)
  || (op =? OP_LDR) || (op =? OP_LEA) || (op =? OP_ST) || (op =? OP_STR).

(** The state outside [reg], for the cases that leave it alone. *)
Definition outside_reg (s : machine) : list Z * list Z * list Z * bool :=
  (memory s, stdin s, stdout s, running s).

(** The registers, the console output and the loop variable, for the cases
    that leave them alone. *)
Definition reg_and_console (s : machine) : list Z * list Z * bool :=
  (reg s, stdout s, running s).

(** ** Bits and words *)

Lemma sign_bit_test (x k : Z) :
  0 <= k -> (Z.land (Z.shiftr x k) 1 =? 0) = negb (Z.testbit x k).
Proof.
  intros Hk.
  change 1 with (Z.ones 1) at 1.
  rewrite Z.land_ones by lia.
  change (2 ^ 1) with 2.
  rewrite <- Z.bit0_mod, Z.shiftr_spec by lia.
  rewrite Z.add_0_l.
  now destruct (Z.testbit x k).
Qed.

Lemma u16_land (x : Z) : u16 x = Z.land x 0xFFFF.
Proof.
  unfold u16. change 0xFFFF with (Z.ones 16).
  now rewrite Z.land_ones by lia.
Qed.

Lemma u16_range (x : Z) : 0 <= u16 x < 2 ^ 16.
Proof. unfold u16. apply Z.mod_pos_bound. lia. Qed.

Lemma int32_low_bits (y i : Z) :
  0 <= i < 32 -> Z.testbit (int32 y) i = Z.testbit y i.
Proof.
  intros Hi.
  rewrite <- (Z.mod_pow2_bits_low (int32 y) 32 i) by lia.
  rewrite <- (Z.mod_pow2_bits_low y 32 i) by lia.
  f_equal. unfold int32.
  rewrite Zminus_mod_idemp_l. f_equal. lia.
Qed.

(** The low sixteen bits of [x | y] do not depend on whether [y] has been
    wrapped to the 32 bits of an [int]. *)
Lemma u16_lor_int32 (x y : Z) : u16 (Z.lor x (int32 y)) = u16 (Z.lor x y).
Proof.
  unfold u16. rewrite <- !Z.land_ones by lia.
  apply Z.bits_inj'. intros i Hi.
  rewrite !Z.land_spec, !Z.lor_spec.
  destruct (Z_lt_le_dec i 16) as [Hlt|Hge].
  - now rewrite int32_low_bits by lia.
  - rewrite Z.ones_spec_high by lia. now rewrite !andb_false_r.
Qed.

Lemma small_testbit (v n m : Z) :
  0 <= v < 2 ^ n -> n <= m -> Z.testbit v m = false.
Proof.
  intros Hv Hm.
  destruct (Z.eq_dec v 0) as [->|Hne]; [apply Z.bits_0|].
  apply Z.bits_above_log2; [lia|].
  assert (Z.log2 v < n); [|lia].
  apply Z.log2_lt_pow2; lia.
Qed.

Lemma lor_high_add (v n : Z) :
  0 <= n -> 0 <= v < 2 ^ n ->
  Z.lor v (Z.shiftl 0xFFFF n) = v + 0xFFFF * 2 ^ n.
Proof.
  intros Hn Hv.
  rewrite <- Z.lxor_lor, <- Z.add_nocarry_lxor, Z.shiftl_mul_pow2; try lia.
  all: apply Z.bits_inj'; intros m Hm; rewrite Z.land_spec, Z.bits_0.
  all: destruct (Z_lt_le_dec m n) as [Hlt|Hge];
    [rewrite (Z.shiftl_spec_low _ _ _ Hlt); apply andb_false_r
    | rewrite (small_testbit v n m) by lia; reflexivity].
Qed.

Lemma field_bool (instr k : Z) :
  0 <= k -> (field instr k BOOL_BITMASK =? 0) = negb (Z.testbit instr k).
Proof. intros Hk. unfold field, BOOL_BITMASK. now apply sign_bit_test. Qed.

Lemma field_reg_range (instr k : Z) : 0 <= field instr k R_BITMASK < 8.
Proof.
  unfold field, R_BITMASK. change 0x7 with (Z.ones 3).
  rewrite Z.land_ones by lia. apply Z.mod_pos_bound. lia.
Qed.

Lemma land_reg_range (instr : Z) : 0 <= Z.land instr R_BITMASK < 8.
Proof.
  unfold R_BITMASK. change 0x7 with (Z.ones 3).
  rewrite Z.land_ones by lia. apply Z.mod_pos_bound. lia.
Qed.

(** ** Running the primitives *)

Lemma bind_eq {A B} (m : M A) (k : A -> M B) (s : machine) :
  (m ≫= k) s =
  match m s with
  | Ok a s' => k a s'
  | Aborted s' => Aborted s'
  | Undefined => Undefined
  end.
Proof. reflexivity. Qed.

Lemma bind_Ok {A B} (m : M A) (k : A -> M B) (s s' : machine) (a : A) :
  m s = Ok a s' -> (m ≫= k) s = k a s'.
Proof. intros H. now rewrite bind_eq, H. Qed.

Lemma load_reg_Ok (s : machine) (i v : Z) :
  0 <= i -> R s i = Some v -> load_reg i s = Ok v s.
Proof.
  unfold load_reg, R. intros Hi ->.
  now destruct (Z.ltb_spec i 0); [lia|].
Qed.

Lemma in_bounds_true {A} (i : Z) (a : list A) :
  0 <= i < Z.of_nat (length a) -> in_bounds i a = true.
Proof.
  intros H. unfold in_bounds.
  apply andb_true_intro. split; [apply Z.leb_le | apply Z.ltb_lt]; lia.
Qed.

Lemma store_reg_Ok (s : machine) (i v : Z) :
  0 <= i < Z.of_nat (length (reg s)) ->
  store_reg i v s = Ok tt (write_reg i v s).
Proof. intros H. unfold store_reg. now rewrite in_bounds_true. Qed.

Lemma load_mem_Ok (s : machine) (i v : Z) :
  0 <= i -> mem s i = Some v -> load_mem i s = Ok v s.
Proof.
  unfold load_mem, mem. intros Hi ->.
  now destruct (Z.ltb_spec i 0); [lia|].
Qed.

Lemma store_mem_Ok (s : machine) (i v : Z) :
  0 <= i < Z.of_nat (length (memory s)) ->
  store_mem i v s = Ok tt (write_mem i v s).
Proof. intros H. unfold store_mem. now rewrite in_bounds_true. Qed.

Lemma R_write_reg_eq (s : machine) (i v : Z) :
  0 <= i < Z.of_nat (length (reg s)) -> R (write_reg i v s) i = Some v.
Proof.
  intros H. unfold R, write_reg. simpl.
  apply list_lookup_insert_eq. lia.
Qed.

Lemma R_write_reg_ne (s : machine) (i j v : Z) :
  0 <= i -> 0 <= j -> i <> j -> R (write_reg i v s) j = R s j.
Proof.
  intros Hi Hj Hne. unfold R, write_reg. simpl.
  apply list_lookup_insert_ne. lia.
Qed.

Lemma length_write_reg (s : machine) (i v : Z) :
  length (reg (write_reg i v s)) = length (reg s).
Proof. unfold write_reg. simpl. apply length_insert. Qed.

Lemma mem_write_mem_eq (s : machine) (i v : Z) :
  0 <= i < Z.of_nat (length (memory s)) -> mem (write_mem i v s) i = Some v.
Proof.
  intros H. unfold mem, write_mem. simpl.
  apply list_lookup_insert_eq. lia.
Qed.

Lemma R_defined (s : machine) (i : Z) :
  0 <= i < Z.of_nat (length (reg s)) -> exists v, R s i = Some v.
Proof.
  intros H. unfold R.
  destruct (lookup_lt_is_Some_2 (reg s) (Z.to_nat i)) as [v Hv]; [lia|].
  now exists v.
Qed.

Lemma mem_defined (s : machine) (i : Z) :
  0 <= i < Z.of_nat (length (memory s)) -> exists v, mem s i = Some v.
Proof.
  intros H. unfold mem.
  destruct (lookup_lt_is_Some_2 (memory s) (Z.to_nat i)) as [v Hv]; [lia|].
  now exists v.
Qed.

Lemma mem_read_plain (s : machine) (a v : Z) :
  0 <= a -> a <> MR_KBSR -> mem s a = Some v -> mem_read a s = Ok v s.
Proof.
  intros Ha Hne Hv. unfold mem_read.
  destruct (Z.eqb_spec a MR_KBSR) as [|_]; [contradiction|].
  rewrite bind_eq. simpl. now apply load_mem_Ok.
Qed.

Lemma update_flags_Ok (s : machine) (r v : Z) :
  0 <= r -> R s r = Some v -> 0 <= v < 2 ^ 16 ->
  R_COND < Z.of_nat (length (reg s)) ->
  update_flags r s = Ok tt (write_reg R_COND (sign_flag v) s).
Proof.
  intros Hr Hv Hw Hlen. unfold update_flags, sign_flag.
  rewrite (bind_Ok _ _ s s v) by now apply load_reg_Ok.
  destruct (Z.eqb_spec v 0) as [_|Hnz].
  - apply store_reg_Ok. unfold R_COND in *. lia.
  - rewrite (bind_Ok _ _ s s v) by now apply load_reg_Ok.
    rewrite Z.shiftr_div_pow2 by lia.
    destruct (Z.leb_spec (2 ^ 15) v) as [Hge|Hlt].
    + destruct (Z.eqb_spec (v / 2 ^ 15) 0) as [Hq|_].
      * apply Z.div_small_iff in Hq; lia.
      * apply store_reg_Ok. unfold R_COND in *. lia.
    + rewrite Z.div_small by lia. apply store_reg_Ok. unfold R_COND in *. lia.
Qed.

(** ** Well-formed states *)

Lemma is_word_spec (x : Z) : is_word x = true <-> 0 <= x < 2 ^ 16.
Proof. unfold is_word. rewrite andb_true_iff, Z.leb_le, Z.ltb_lt. tauto. Qed.

Lemma is_byte_spec (x : Z) : is_byte x = true <-> 0 <= x < 2 ^ 8.
Proof. unfold is_byte. rewrite andb_true_iff, Z.leb_le, Z.ltb_lt. tauto. Qed.

Lemma forallb_lookup {A} (f : A -> bool) (l : list A) (i : nat) (x : A) :
  forallb f l = true -> l !! i = Some x -> f x = true.
Proof.
  revert i. induction l as [|y l IH]; intros [|i] Hall Hi; simpl in *;
    try discriminate; apply andb_true_iff in Hall as [Hy Hl].
  - now injection Hi as <-.
  - now apply (IH i).
Qed.

Lemma forallb_insert {A} (f : A -> bool) (l : list A) (i : nat) (x : A) :
  forallb f l = true -> f x = true -> forallb f (<[i := x]> l) = true.
Proof.
  revert i. induction l as [|y l IH]; intros [|i] Hall Hx; simpl in *;
    try reflexivity; apply andb_true_iff in Hall as [Hy Hl];
    apply andb_true_iff; auto.
Qed.

Lemma wf_unpack (s : machine) :
  wf s = true ->
  Z.of_nat (length (memory s)) = MEMORY_MAX
  /\ Z.of_nat (length (reg s)) = R_COUNT
  /\ forallb is_word (memory s) = true
  /\ forallb is_word (reg s) = true
  /\ forallb is_byte (stdin s) = true.
Proof. unfold wf. rewrite !andb_true_iff, !Z.eqb_eq. tauto. Qed.

Lemma wf_pack (s : machine) :
  Z.of_nat (length (memory s)) = MEMORY_MAX ->
  Z.of_nat (length (reg s)) = R_COUNT ->
  forallb is_word (memory s) = true ->
  forallb is_word (reg s) = true ->
  forallb is_byte (stdin s) = true ->
  wf s = true.
Proof. intros. unfold wf. rewrite !andb_true_iff, !Z.eqb_eq. tauto. Qed.

Lemma wf_reg_len (s : machine) :
  wf s = true -> Z.of_nat (length (reg s)) = 10.
Proof. intros H. apply wf_unpack in H. tauto. Qed.

Lemma wf_mem_len (s : machine) :
  wf s = true -> Z.of_nat (length (memory s)) = 2 ^ 16.
Proof. intros H. apply wf_unpack in H. tauto. Qed.

Lemma wf_R_word (s : machine) (i v : Z) :
  wf s = true -> R s i = Some v -> 0 <= v < 2 ^ 16.
Proof.
  intros H Hv. apply wf_unpack in H as (_ & _ & _ & Hr & _).
  apply is_word_spec. exact (forallb_lookup _ _ _ _ Hr Hv).
Qed.

Lemma wf_mem_word (s : machine) (a v : Z) :
  wf s = true -> mem s a = Some v -> 0 <= v < 2 ^ 16.
Proof.
  intros H Hv. apply wf_unpack in H as (_ & _ & Hm & _ & _).
  apply is_word_spec. exact (forallb_lookup _ _ _ _ Hm Hv).
Qed.

Lemma wf_write_reg (s : machine) (i v : Z) :
  wf s = true -> 0 <= v < 2 ^ 16 -> wf (write_reg i v s) = true.
Proof.
  intros H Hv. apply wf_unpack in H as (Hm & Hr & Hmw & Hrw & Hb).
  apply wf_pack; unfold write_reg; simpl; auto.
  - now rewrite length_insert.
  - apply forallb_insert; [assumption | now apply is_word_spec].
Qed.

Lemma wf_write_mem (s : machine) (a v : Z) :
  wf s = true -> 0 <= v < 2 ^ 16 -> wf (write_mem a v s) = true.
Proof.
  intros H Hv. apply wf_unpack in H as (Hm & Hr & Hmw & Hrw & Hb).
  apply wf_pack; unfold write_mem; simpl; auto.
  - now rewrite length_insert.
  - apply forallb_insert; [assumption | now apply is_word_spec].
Qed.

(** ** Fetch *)

Lemma fetch_Ok (s : machine) (pc instr : Z) :
  wf s = true -> R s R_PC = Some pc -> pc <> MR_KBSR ->
  mem s pc = Some instr ->
  fetch s = Ok instr (write_reg R_PC (u16 (pc + 1)) s).
Proof.
  intros Hwf Hpc Hkb Hi. unfold fetch.
  pose proof (wf_reg_len s Hwf) as Hlen.
  pose proof (wf_R_word s _ _ Hwf Hpc) as Hw.
  rewrite (bind_Ok _ _ s s pc) by (apply load_reg_Ok; [unfold R_PC; lia | assumption]).
  rewrite (bind_Ok _ _ s (write_reg R_PC (u16 (pc + 1)) s) tt)
    by (apply store_reg_Ok; unfold R_PC; lia).
  apply mem_read_plain; [lia | assumption | exact Hi].
Qed.

(** ** sign_extend *)

(** C9. For a width n from 1 to 16 and a value v below 2^n, [sign_extend v n]
    is v when bit n-1 of v is clear, and v | (0xFFFF << n) masked to sixteen
    bits when that bit is set; in the second case this is the word
    v + 2^16 - 2^n, the two's-complement reading of v widened to 16 bits. *)
Theorem sign_extend_by_sign_bit (n v : Z) :
  1 <= n <= 16 -> 0 <= v < 2 ^ n ->
  (Z.testbit v (n - 1) = false -> sign_extend v n = v)
  /\ (Z.testbit v (n - 1) = true ->
      sign_extend v n = Z.land (Z.lor v (Z.shiftl 0xFFFF n)) 0xFFFF
      /\ sign_extend v n = v + 2 ^ 16 - 2 ^ n).
Proof.
  intros Hn Hv. unfold sign_extend.
  rewrite sign_bit_test, u16_lor_int32 by lia.
  split; intros Hb; rewrite Hb; simpl; [reflexivity|].
  split; [apply u16_land|].
  rewrite lor_high_add by lia. unfold u16.
  assert (Hp : 2 ^ n <= 2 ^ 16) by (apply Z.pow_le_mono_r; lia).
  replace (v + 0xFFFF * 2 ^ n)
    with ((v + 2 ^ 16 - 2 ^ n) + (2 ^ n - 1) * 2 ^ 16) by lia.
  rewrite Z_mod_plus_full. apply Z.mod_small. lia.
Qed.

Lemma sign_extend_by_sign_bit_witness :
  sign_extend 0x1F 5 = 0xFFFF /\ sign_extend 0x0F 5 = 0x0F.
Proof.
  split.
  - apply (sign_extend_by_sign_bit 5 0x1F); [lia | lia | reflexivity].
  - apply (sign_extend_by_sign_bit 5 0x0F); [lia | lia | reflexivity].
Defined.

(** ** JSR / JSRR *)

Lemma exec_instr_JSR (instr : Z) :
  Z.shiftr instr 12 = OP_JSR -> exec_instr instr = op_jsr instr.
Proof. intros H. unfold exec_instr. now rewrite H. Qed.

Lemma op_jsr_Ok (s : machine) (instr pc : Z) :
  Z.of_nat (length (reg s)) = R_COUNT -> R s R_PC = Some pc ->
  exists s',
    op_jsr instr s = Ok tt s'
    /\ R s' R_R7 = Some pc
    /\ (Z.testbit instr 11 = true ->
        R s' R_PC = Some (u16 (sign_extend (Z.land instr 0x7FF) 11 + pc)))
    /\ (Z.testbit instr 11 = false ->
        R s' R_PC = R (write_reg R_R7 pc s) (field instr 6 R_BITMASK)).
Proof.
  intros Hlen Hpc. unfold op_jsr, R_COUNT in *.
  rewrite (bind_Ok _ _ s s pc) by (now apply load_reg_Ok).
  set (s1 := write_reg R_R7 pc s).
  rewrite (bind_Ok _ _ s s1 tt) by (apply store_reg_Ok; unfold R_R7; lia).
  assert (Hlen1 : Z.of_nat (length (reg s1)) = 10)
    by (unfold s1; now rewrite length_write_reg).
  assert (H7 : R s1 R_R7 = Some pc)
    by (apply R_write_reg_eq; unfold R_R7; lia).
  rewrite field_bool by lia.
  destruct (Z.testbit instr 11); simpl.
  - rewrite (bind_Ok _ _ s1 s1 pc) by (now apply load_reg_Ok).
    eexists. split; [apply store_reg_Ok; unfold R_PC; lia|].
    split; [|split; [intros _|discriminate]].
    + now rewrite R_write_reg_ne by (unfold R_PC, R_R7; lia).
    + apply R_write_reg_eq. unfold R_PC. lia.
  - pose proof (field_reg_range instr 6) as Hb.
    destruct (R_defined s1 (field instr 6 R_BITMASK)) as [b Hbv]; [lia|].
    rewrite (bind_Ok _ _ s1 s1 b) by (apply load_reg_Ok; [lia | assumption]).
    eexists. split; [apply store_reg_Ok; unfold R_PC; lia|].
    split; [|split; [discriminate|intros _]].
    + now rewrite R_write_reg_ne by (unfold R_PC, R_R7; lia).
    + rewrite Hbv. apply R_write_reg_eq. unfold R_PC. lia.
Qed.

(** C7. A JSR/JSRR instruction (opcode 0x4) fetched at [pc] sets R7 to the
    incremented PC before it computes the target: with bit 11 set the new PC
    is R7 + sign_extend(instr[10:0], 11), and with bit 11 clear it is the base
    register as read after the write to R7.  In particular 0x4802 fetched at
    0x3000 leaves R7 = 0x3001 and PC = 0x3003. *)
Theorem JSR_saves_PC_then_jumps (s : machine) (instr pc : Z) :
  wf s = true -> R s R_PC = Some pc -> pc <> MR_KBSR ->
  mem s pc = Some instr -> Z.shiftr instr 12 = OP_JSR ->
  exists s',
    step s = Ok tt s'
    /\ R s' R_R7 = Some (u16 (pc + 1))
    /\ (Z.testbit instr 11 = true ->
        R s' R_PC =
        Some (u16 (sign_extend (Z.land instr 0x7FF) 11 + u16 (pc + 1))))
    /\ (Z.testbit instr 11 = false ->
        R s' R_PC =
        R (write_reg R_R7 (u16 (pc + 1)) (write_reg R_PC (u16 (pc + 1)) s))
          (field instr 6 R_BITMASK))
    /\ (instr = 0x4802 -> pc = 0x3000 ->
        R s' R_R7 = Some 0x3001 /\ R s' R_PC = Some 0x3003).
Proof.
  intros Hwf Hpc Hkb Hi Hop. unfold step.
  rewrite (bind_Ok _ _ _ _ _ (fetch_Ok s pc instr Hwf Hpc Hkb Hi)).
  rewrite exec_instr_JSR by assumption.
  set (s1 := write_reg R_PC (u16 (pc + 1)) s).
  pose proof (wf_reg_len s Hwf) as Hlen.
  destruct (op_jsr_Ok s1 instr (u16 (pc + 1))) as (s' & Hrun & H7 & Hset & Hclr).
  { unfold s1. now rewrite length_write_reg. }
  { apply R_write_reg_eq. unfold R_PC. lia. }
  exists s'. split; [exact Hrun|]. split; [exact H7|].
  split; [exact Hset|]. split; [exact Hclr|].
  intros -> ->. split; [exact H7 | now rewrite Hset].
Qed.

Lemma JSR_saves_PC_then_jumps_witness :
  exists s',
    step (boot (place 0x3000 [0x4802] blank) []) = Ok tt s'
    /\ R s' R_R7 = Some 0x3001 /\ R s' R_PC = Some 0x3003.
Proof.
  destruct (JSR_saves_PC_then_jumps
              (boot (place 0x3000 [0x4802] blank) []) 0x4802 0x3000)
    as (s' & Hrun & _ & _ & _ & Hscenario);
    [vm_compute; reflexivity | vm_compute; reflexivity | discriminate
    | vm_compute; reflexivity | reflexivity |].
  exists s'. split; [exact Hrun | now apply Hscenario].
Defined.

(** ** ADD *)

Lemma exec_instr_ADD (instr : Z) :
  Z.shiftr instr 12 = OP_ADD -> exec_instr instr = op_add instr.
Proof. intros H. unfold exec_instr. now rewrite H. Qed.

(** Storing a word in a general register and updating the flags from it. *)
Lemma store_then_flags (s : machine) (r v : Z) :
  Z.of_nat (length (reg s)) = R_COUNT -> 0 <= r < 8 -> 0 <= v < 2 ^ 16 ->
  exists s',
    (store_reg r v;; update_flags r) s = Ok tt s'
    /\ s' = write_reg R_COND (sign_flag v) (write_reg r v s)
    /\ R s' r = Some v
    /\ R s' R_COND = Some (sign_flag v).
Proof.
  intros Hlen Hr Hv. unfold R_COUNT in *.
  set (s1 := write_reg r v s).
  assert (Hlen1 : Z.of_nat (length (reg s1)) = 10)
    by (unfold s1; now rewrite length_write_reg).
  exists (write_reg R_COND (sign_flag v) s1).
  split; [|split; [reflexivity|split]].
  - rewrite (bind_Ok _ _ s s1 tt) by (apply store_reg_Ok; lia).
    apply update_flags_Ok; try lia.
    + apply R_write_reg_eq. lia.
    + unfold R_COND. lia.
  - rewrite R_write_reg_ne by (unfold R_COND; lia).
    apply R_write_reg_eq. lia.
  - apply R_write_reg_eq. unfold R_COND. lia.
Qed.

Lemma op_add_Ok (s : machine) (instr a b : Z) :
  Z.of_nat (length (reg s)) = R_COUNT ->
  R s (field instr 6 R_BITMASK) = Some a ->
  (Z.testbit instr 5 = true -> b = sign_extend (Z.land instr 0x1F) 5) ->
  (Z.testbit instr 5 = false -> R s (Z.land instr R_BITMASK) = Some b) ->
  exists s',
    op_add instr s = Ok tt s'
    /\ R s' (field instr 9 R_BITMASK) = Some (u16 (a + b))
    /\ R s' R_COND = Some (sign_flag (u16 (a + b))).
Proof.
  intros Hlen Ha Himm Hreg. unfold op_add.
  pose proof (field_reg_range instr 9) as Hdr.
  pose proof (field_reg_range instr 6) as Hsr.
  pose proof (land_reg_range instr) as Hsr2.
  destruct (store_then_flags s (field instr 9 R_BITMASK) (u16 (a + b)))
    as (s' & Hrun & _ & Hv & Hc); [assumption | lia | apply u16_range |].
  exists s'. split; [|split; assumption].
  rewrite <- Hrun, field_bool by lia.
  destruct (Z.testbit instr 5); simpl.
  - rewrite <- Himm by reflexivity. rewrite !bind_eq.
    now rewrite (load_reg_Ok s _ a) by (lia || assumption).
  - rewrite !bind_eq.
    rewrite (load_reg_Ok s _ a) by (lia || assumption).
    rewrite !bind_eq.
    now rewrite (load_reg_Ok s _ b) by (lia || auto).
Qed.

(** C8. ADD (opcode 0x1) stores the sum of its operands modulo 2^16 in DR and
    sets COND from the two's-complement sign of that word: Z for 0, N from
    0x8000 on, P otherwise.  With R0 = 0x7FFF, instruction 0x1021 yields
    R0 = 0x8000 and COND = N. *)
Theorem ADD_wraps_and_flags_sign (s : machine) (instr a b : Z) :
  Z.of_nat (length (reg s)) = R_COUNT ->
  Z.shiftr instr 12 = OP_ADD ->
  R s (field instr 6 R_BITMASK) = Some a ->
  (Z.testbit instr 5 = true -> b = sign_extend (Z.land instr 0x1F) 5) ->
  (Z.testbit instr 5 = false -> R s (Z.land instr R_BITMASK) = Some b) ->
  exists s',
    exec_instr instr s = Ok tt s'
    /\ R s' (field instr 9 R_BITMASK) = Some ((a + b) mod 2 ^ 16)
    /\ R s' R_COND = Some (sign_flag ((a + b) mod 2 ^ 16))
    /\ (instr = 0x1021 -> a = 0x7FFF ->
        R s' R_R0 = Some 0x8000 /\ R s' R_COND = Some FL_NEG).
Proof.
  intros Hlen Hop Ha Himm Hreg.
  rewrite exec_instr_ADD by assumption.
  destruct (op_add_Ok s instr a b Hlen Ha Himm Hreg) as (s' & Hrun & Hv & Hc).
  exists s'. split; [exact Hrun|]. split; [exact Hv|]. split; [exact Hc|].
  intros -> ->. rewrite (Himm eq_refl) in Hv, Hc. split.
  - exact Hv.
  - exact Hc.
Qed.

Lemma ADD_wraps_and_flags_sign_witness :
  exists s',
    exec_instr 0x1021 (write_reg R_R0 0x7FFF (boot blank [])) = Ok tt s'
    /\ R s' R_R0 = Some 0x8000 /\ R s' R_COND = Some FL_NEG.
Proof.
  destruct (ADD_wraps_and_flags_sign
              (write_reg R_R0 0x7FFF (boot blank [])) 0x1021 0x7FFF 1)
    as (s' & Hrun & _ & _ & Hscenario);
    [reflexivity | reflexivity | reflexivity | reflexivity | discriminate |].
  exists s'. split; [exact Hrun | now apply Hscenario].
Defined.

(** ** TRAP PUTS *)

Lemma set_stdout_same (s : machine) : set_stdout (stdout s) s = s.
Proof. now destruct s. Qed.

Lemma words_empty (s : machine) (a : Z) : words s a a = [].
Proof. unfold words. now rewrite Z.sub_diag. Qed.

Lemma words_cons (s : machine) (a b w : Z) :
  0 <= a < b -> mem s a = Some w -> words s a b = w :: words s (a + 1) b.
Proof.
  intros Hab Hw. unfold words, mem in *.
  replace (Z.to_nat (b - a)) with (S (Z.to_nat (b - (a + 1)))) by lia.
  rewrite (drop_S _ _ _ Hw). simpl.
  now replace (Z.to_nat (a + 1)) with (S (Z.to_nat a)) by lia.
Qed.

(** The least zero word at or after [c], when there is a zero word [n]
    places further. *)
Lemma least_zero_word (s : machine) (n : nat) (c : Z) :
  0 <= c -> mem s (c + Z.of_nat n) = Some 0 ->
  exists k : nat,
    (k <= n)%nat
    /\ mem s (c + Z.of_nat k) = Some 0
    /\ (forall a, c <= a < c + Z.of_nat k -> mem s a <> Some 0).
Proof.
  revert c. induction n as [|n IH]; intros c Hc Hz.
  - exists 0%nat. split; [lia|]. split; [exact Hz|]. intros a Ha. lia.
  - destruct (decide (mem s c = Some 0)) as [Hc0|Hc0].
    + exists 0%nat. split; [lia|]. split; [now rewrite Z.add_0_r|].
      intros a Ha. lia.
    + destruct (IH (c + 1)) as (k & Hk & Hkz & Hmin); [lia| |].
      { now replace (c + 1 + Z.of_nat n) with (c + Z.of_nat (S n)) by lia. }
      exists (S k). split; [lia|]. split.
      * now replace (c + Z.of_nat (S k)) with (c + 1 + Z.of_nat k) by lia.
      * intros a Ha. destruct (Z.eq_dec a c) as [->|Hne]; [exact Hc0|].
        apply Hmin. lia.
Qed.

Lemma puts_loop_Ok (k : nat) :
  forall (fuel : nat) (c : Z) (s : machine),
    (k < fuel)%nat -> 0 <= c ->
    mem s (c + Z.of_nat k) = Some 0 ->
    (forall a, c <= a < c + Z.of_nat k -> mem s a <> Some 0) ->
    puts_loop fuel c s =
    Ok tt (set_stdout
             (stdout s ++ map (fun w => w mod 256) (words s c (c + Z.of_nat k)))
             s).
Proof.
  induction k as [|k IH]; intros fuel c s Hfuel Hc Hz Hmin;
    (destruct fuel as [|fuel]; [lia|]); simpl puts_loop.
  - rewrite Z.add_0_r in *.
    rewrite (bind_Ok _ _ s s 0) by now apply load_mem_Ok.
    rewrite words_empty. simpl. rewrite app_nil_r.
    now rewrite set_stdout_same.
  - destruct (mem_defined s c) as [w Hw].
    { unfold mem in Hz. apply lookup_lt_Some in Hz. lia. }
    assert (Hnz : w <> 0) by (intros ->; apply (Hmin c); [lia | exact Hw]).
    rewrite (bind_Ok _ _ s s w) by now apply load_mem_Ok.
    destruct (Z.eqb_spec w 0) as [|_]; [contradiction|].
    rewrite bind_eq. unfold putc at 1.
    rewrite (IH fuel (c + 1)); try lia.
    + rewrite (words_cons s c (c + Z.of_nat (S k)) w) by (lia || assumption).
      replace (c + 1 + Z.of_nat k) with (c + Z.of_nat (S k)) by lia.
      unfold set_stdout, words. simpl. now rewrite <- app_assoc.
    + now replace (c + 1 + Z.of_nat k) with (c + Z.of_nat (S k)) by lia.
    + intros a Ha. apply (Hmin a). lia.
Qed.

(** C10. When some word from address R0 up to 0xFFFF is zero, the PUTS routine
    returns, having appended to stdout the low bytes of the words from
    [memory[R0]] up to the first zero word, in order; registers and memory are
    as before. *)
Theorem PUTS_writes_up_to_first_zero (s : machine) (r0 z : Z) :
  R s R_R0 = Some r0 -> 0 <= r0 <= z -> z <= 0xFFFF -> mem s z = Some 0 ->
  exists z' s',
    r0 <= z' <= z
    /\ mem s z' = Some 0
    /\ (forall a, r0 <= a < z' -> mem s a <> Some 0)
    /\ trap_puts s = Ok tt s'
    /\ stdout s' = stdout s ++ map (fun w => w mod 256) (words s r0 z')
    /\ reg s' = reg s
    /\ memory s' = memory s.
Proof.
  intros Hr0 Hrz Hz Hzero.
  destruct (least_zero_word s (Z.to_nat (z - r0)) r0) as (k & Hk & Hkz & Hmin).
  { lia. }
  { now replace (r0 + Z.of_nat (Z.to_nat (z - r0))) with z by lia. }
  exists (r0 + Z.of_nat k). eexists.
  split; [lia|]. split; [exact Hkz|]. split; [exact Hmin|].
  split; [|split; [|split]].
  - unfold trap_puts.
    rewrite (bind_Ok _ _ s s r0) by (now apply load_reg_Ok).
    apply (puts_loop_Ok k); try assumption; try lia.
    change MEMORY_MAX with 65536. lia.
  - reflexivity.
  - reflexivity.
  - reflexivity.
Qed.

Lemma PUTS_writes_up_to_first_zero_witness :
  exists s',
    trap_puts (write_reg R_R0 0x4000
                 (boot (place 0x4000 [0x48; 0x49; 0x21; 0x0000] blank) []))
    = Ok tt s'
    /\ stdout s' = [0x48; 0x49; 0x21].
Proof.
  destruct (PUTS_writes_up_to_first_zero
              (write_reg R_R0 0x4000
                 (boot (place 0x4000 [0x48; 0x49; 0x21; 0x0000] blank) []))
              0x4000 0x4003)
    as (z' & s' & Hz' & Hzero & Hmin & Hrun & Hout & _);
    [reflexivity | lia | lia | vm_compute; reflexivity |].
  exists s'. split; [exact Hrun|].
  assert (z' = 0x4003) as ->.
  { destruct (Z.eq_dec z' 0x4003) as [|Hne]; [assumption|].
    exfalso. clear Hrun Hout.
    assert (Hcases : z' = 0x4000 \/ z' = 0x4001 \/ z' = 0x4002) by lia.
    destruct Hcases as [-> | [-> | ->]];
      (assert (Some 0 <> Some 0 :> option Z) as Habs;
       [rewrite <- Hzero at 1; vm_compute; discriminate | now apply Habs]). }
  rewrite Hout. vm_compute. reflexivity.
Defined.

(** ** NOT *)

Lemma exec_instr_NOT (instr : Z) :
  Z.shiftr instr 12 = OP_NOT -> exec_instr instr = op_not instr.
Proof. intros H. unfold exec_instr. now rewrite H. Qed.

(** Whatever the registers hold, NOT leaves in DR the complement of the
    number of the source register. *)
Lemma NOT_ignores_register_value (s : machine) (instr : Z) :
  Z.of_nat (length (reg s)) = R_COUNT ->
  Z.shiftr instr 12 = OP_NOT ->
  exists s',
    exec_instr instr s = Ok tt s'
    /\ R s' (field instr 9 R_BITMASK) =
       Some (0xFFFF - field instr 6 R_BITMASK).
Proof.
  intros Hlen Hop. rewrite exec_instr_NOT by assumption. unfold op_not.
  pose proof (field_reg_range instr 9) as Hdr.
  pose proof (field_reg_range instr 6) as Hsr.
  destruct (store_then_flags s (field instr 9 R_BITMASK)
              (u16 (Z.lnot (field instr 6 R_BITMASK))))
    as (s' & Hrun & _ & Hv & _); [assumption | lia | apply u16_range |].
  exists s'. split; [exact Hrun|]. rewrite Hv. f_equal.
  unfold u16, Z.lnot.
  replace (Z.pred (- field instr 6 R_BITMASK))
    with ((0xFFFF - field instr 6 R_BITMASK) + (-1) * 2 ^ 16) by lia.
  rewrite Z_mod_plus_full. apply Z.mod_small. lia.
Qed.

(** C1. NOT R0, R1 (0x907F) with R1 = 0x00FF: the code leaves 0xFFFE in R0,
    the complement of the register number 1, where the complement of the
    value of R1 is 0xFF00. *)
Theorem NOT_complements_register_number :
  R not_input R_R1 = Some 0x00FF
  /\ exec_instr 0x907F not_input =
     Ok tt (write_reg R_COND FL_NEG (write_reg R_R0 0xFFFE not_input))
  /\ u16 (Z.lnot 0x00FF) = 0xFF00.
Proof. split; [|split]; by_evaluation. Qed.

(** ** ST, STI, STR *)

(** C2. STI R0, #1 (0xB001) fetched at 0x3000, with the pointer 0x4000 in the
    slot PC + 1 = 0x3002: the code reads [reg[R_PC + 1]], that is COND = 2,
    takes the word 0x5000 at address 2 as the target and stores R0 there; the
    word at 0x4000 is not written. *)
Theorem STI_indexes_reg_by_offset :
  mem sti_input 0x3002 = Some 0x4000
  /\ R sti_input R_R0 = Some 0xABCD
  /\ step sti_input =
     Ok tt (write_mem 0x5000 0xABCD (write_reg R_PC 0x3001 sti_input))
  /\ mem (write_mem 0x5000 0xABCD (write_reg R_PC 0x3001 sti_input)) 0x4000
     = Some 0.
Proof. repeat split; by_evaluation. Qed.

Lemma exec_instr_ST (instr : Z) :
  Z.shiftr instr 12 = OP_ST -> exec_instr instr = op_st instr.
Proof. intros H. unfold exec_instr. now rewrite H. Qed.

Lemma exec_instr_STI (instr : Z) :
  Z.shiftr instr 12 = OP_STI -> exec_instr instr = op_sti instr.
Proof. intros H. unfold exec_instr. now rewrite H. Qed.

Lemma exec_instr_STR (instr : Z) :
  Z.shiftr instr 12 = OP_STR -> exec_instr instr = op_str instr.
Proof. intros H. unfold exec_instr. now rewrite H. Qed.

(** With an offset of 2 or more the subscript [R_PC + pc_offset] of STI is
    outside [reg]. *)
Lemma STI_subscript_out_of_bounds (s : machine) (instr : Z) :
  Z.of_nat (length (reg s)) = R_COUNT ->
  Z.shiftr instr 12 = OP_STI ->
  2 <= sign_extend (Z.land instr 0x1FF) 9 ->
  exec_instr instr s = Undefined.
Proof.
  intros Hlen Hop Hoff. rewrite exec_instr_STI by assumption.
  unfold op_sti. rewrite bind_eq. unfold load_reg at 1.
  destruct (Z.ltb_spec (R_PC + sign_extend (Z.land instr 0x1FF) 9) 0) as [|_];
    [reflexivity|].
  rewrite lookup_ge_None_2; [reflexivity|].
  unfold R_COUNT, R_PC in *. lia.
Qed.

(** Whatever the registers hold, ST stores the number of its register
    operand. *)
Lemma ST_ignores_register_value (s : machine) (instr pc : Z) :
  Z.of_nat (length (memory s)) = MEMORY_MAX -> R s R_PC = Some pc ->
  Z.shiftr instr 12 = OP_ST ->
  exec_instr instr s =
  Ok tt (write_mem (u16 (pc + sign_extend (Z.land instr 0x1FF) 9))
           (field instr 9 R_BITMASK) s).
Proof.
  intros Hlen Hpc Hop. rewrite exec_instr_ST by assumption. unfold op_st.
  rewrite (bind_Ok _ _ s s pc) by (now apply load_reg_Ok).
  apply store_mem_Ok. rewrite Hlen.
  change MEMORY_MAX with (2 ^ 16). apply u16_range.
Qed.

(** C3. ST R1, #1 at 0x3000 followed by LD R2, #0 at 0x3001, both addressing
    0x3002, with R1 = 0x1234: the code stores the register number 1 and loads
    it back, so R2 ends as 1 and not as 0x1234. *)
Theorem ST_then_LD_loads_register_number :
  R st_ld_input R_R1 = Some 0x1234
  /\ u16 (0x3001 + sign_extend (Z.land 0x3201 0x1FF) 9) = 0x3002
  /\ u16 (0x3002 + sign_extend (Z.land 0x2400 0x1FF) 9) = 0x3002
  /\ run 2 st_ld_input =
     Ok tt (write_reg R_COND FL_POS
              (write_reg R_R2 1
                 (write_reg R_PC 0x3002
                    (write_mem 0x3002 1
                       (write_reg R_PC 0x3001 st_ld_input)))))
  /\ 1 <> 0x1234.
Proof. repeat split; [by_evaluation ..| discriminate]. Qed.

(** Whatever the registers hold, STR stores the number of its register operand
    at [reg[base_r] + offset], and leaves every register as it was. *)
Lemma STR_ignores_register_value (s : machine) (instr b : Z) :
  Z.of_nat (length (memory s)) = MEMORY_MAX ->
  R s (field instr 6 R_BITMASK) = Some b ->
  Z.shiftr instr 12 = OP_STR ->
  exists s',
    exec_instr instr s = Ok tt s'
    /\ mem s' (u16 (b + sign_extend (Z.land instr 0x3F) 6)) =
       Some (field instr 9 R_BITMASK)
    /\ reg s' = reg s.
Proof.
  intros Hlen Hb Hop. rewrite exec_instr_STR by assumption.
  assert (Ha : 0 <= u16 (b + sign_extend (Z.land instr 0x3F) 6)
               < Z.of_nat (length (memory s)))
    by (rewrite Hlen; change MEMORY_MAX with (2 ^ 16); apply u16_range).
  eexists. split; [|split; [now apply mem_write_mem_eq | reflexivity]].
  unfold op_str.
  pose proof (field_reg_range instr 6) as Hr.
  rewrite (bind_Ok _ _ s s b) by (apply load_reg_Ok; [lia | assumption]).
  apply store_mem_Ok. rewrite Hlen.
  change MEMORY_MAX with (2 ^ 16). apply u16_range.
Qed.

(** C4. STR R1, R2, #0 (0x7280) with R1 = 0x1234 and R2 = 0x4000: the code
    writes the register number 1 to address 0x4000, not the value 0x1234 of
    R1; the registers are as before. *)
Theorem STR_stores_register_number :
  R str_input R_R1 = Some 0x1234
  /\ R str_input R_R2 = Some 0x4000
  /\ exec_instr 0x7280 str_input = Ok tt (write_mem 0x4000 1 str_input)
  /\ mem (write_mem 0x4000 1 str_input) 0x4000 = Some 1
  /\ reg (write_mem 0x4000 1 str_input) = reg str_input.
Proof. repeat split; by_evaluation. Qed.

(** ** TRAP *)

Lemma exec_instr_TRAP (instr : Z) :
  Z.shiftr instr 12 = OP_TRAP -> exec_instr instr = op_trap instr.
Proof. intros H. unfold exec_instr. now rewrite H. Qed.

Lemma bind_abort_not_Ok {A B} (m : M A) (s s' : machine) (b : B) :
  (m;; abort) s <> Ok b s'.
Proof. rewrite bind_eq. unfold abort. now destruct (m s). Qed.

(** No TRAP instruction, whatever its vector, goes back to the loop. *)
Lemma TRAP_never_continues (instr : Z) (s s' : machine) :
  Z.shiftr instr 12 = OP_TRAP -> exec_instr instr s <> Ok tt s'.
Proof.
  intros Hop. rewrite exec_instr_TRAP by assumption. unfold op_trap.
  rewrite bind_eq. destruct (load_reg R_PC s) as [pc s1| |]; try discriminate.
  rewrite bind_eq. destruct (store_reg R_R7 pc s1) as [[] s2| |];
    try discriminate.
  apply bind_abort_not_Ok.
Qed.

(** C5. TRAP 0xFF (0xF0FF) fetched at 0x3000: the vector is none of
    0x20..0x25, the code saves PC in R7 and then reaches [abort()] instead of
    going back to the loop. *)
Theorem TRAP_unknown_vector_aborts :
  (Z.land 0xF0FF 0xFF <? 0x20) || (0x25 <? Z.land 0xF0FF 0xFF) = true
  /\ step trap_input =
     Aborted (write_reg R_R7 0x3001 (write_reg R_PC 0x3001 trap_input)).
Proof. split; by_evaluation. Qed.

(** ** The condition register *)

Lemma is_flag_popcount (c : Z) : is_flag c -> popcount c = 1.
Proof. intros [-> | [-> | ->]]; reflexivity. Qed.

Lemma cond_ok_intro (s : machine) (c : Z) :
  R s R_COND = Some c -> is_flag c -> cond_ok s.
Proof.
  intros Hc Hf. exists c. split; [exact Hc|]. split; [exact Hf|].
  now apply is_flag_popcount.
Qed.

Lemma cond_ok_same_reg (s s' : machine) :
  reg s' = reg s -> cond_ok s -> cond_ok s'.
Proof. unfold cond_ok, R. now intros ->. Qed.

Lemma sign_flag_is_flag (v : Z) : is_flag (sign_flag v).
Proof.
  unfold sign_flag, is_flag.
  destruct (v =? 0); [auto|]. destruct (2 ^ 15 <=? v); auto.
Qed.

Section Keeps.

Context {A B : Type}.
Variable I : machine -> Prop.

Lemma keeps_ret (a : A) : keeps I (mret a : M A).
Proof. intros s Hs. exact Hs. Qed.

Lemma keeps_abort : keeps I (abort : M A).
Proof. intros s Hs. exact Hs. Qed.

Lemma keeps_undefined : keeps I (undefined : M A).
Proof. intros s Hs. exact Logic.I. Qed.

Lemma keeps_bind (m : M A) (k : A -> M B) :
  keeps I m -> (forall a, keeps I (k a)) -> keeps I (m ≫= k).
Proof.
  intros Hm Hk s Hs. rewrite bind_eq. specialize (Hm s Hs).
  destruct (m s) as [a s1|s1|]; [exact (Hk a s1 Hm) | exact Hm | exact Logic.I].
Qed.

Lemma keeps_if (b : bool) (m1 m2 : M A) :
  keeps I m1 -> keeps I m2 -> keeps I (if b then m1 else m2).
Proof. now destruct b. Qed.

Lemma keeps_load_reg (i : Z) : keeps I (load_reg i).
Proof.
  intros s Hs. unfold load_reg.
  destruct (i <? 0); [exact Logic.I|].
  now destruct (reg s !! Z.to_nat i).
Qed.

Lemma keeps_load_mem (i : Z) : keeps I (load_mem i).
Proof.
  intros s Hs. unfold load_mem.
  destruct (i <? 0); [exact Logic.I|].
  now destruct (memory s !! Z.to_nat i).
Qed.

Lemma keeps_key_ready : keeps I key_ready.
Proof. intros s Hs. exact Hs. Qed.

End Keeps.

(** What the remaining primitives do to the register file. *)
Lemma keeps_same_reg {A} (m : M A) :
  (forall s, match m s with
             | Ok _ s' => reg s' = reg s
             | Aborted s' => reg s' = reg s
             | Undefined => True
             end) ->
  keeps cond_ok m.
Proof.
  intros Hm s Hs. specialize (Hm s).
  destruct (m s) as [a s'|s'|]; [| |exact I]; now apply (cond_ok_same_reg s).
Qed.

Lemma keeps_store_mem (i v : Z) : keeps cond_ok (store_mem i v).
Proof.
  apply keeps_same_reg. intros s. unfold store_mem.
  now destruct (in_bounds i (memory s)).
Qed.

Lemma keeps_putc (b : Z) : keeps cond_ok (putc b).
Proof. now apply keeps_same_reg. Qed.

Lemma keeps_read_byte : keeps cond_ok read_byte.
Proof.
  apply keeps_same_reg. intros s. unfold read_byte. now destruct (stdin s).
Qed.

Lemma keeps_stop_running : keeps cond_ok stop_running.
Proof. now apply keeps_same_reg. Qed.

Lemma keeps_store_reg_other (i v : Z) :
  i <> R_COND -> keeps cond_ok (store_reg i v).
Proof.
  intros Hne s (c & Hc & Hf). unfold store_reg, in_bounds.
  destruct (Z.leb_spec 0 i) as [Hi|]; [|exact I].
  destruct (i <? Z.of_nat (length (reg s))); [|exact I]. simpl.
  exists c. split; [|exact Hf].
  rewrite R_write_reg_ne; [exact Hc | lia | unfold R_COND; lia | exact Hne].
Qed.

Lemma keeps_store_reg_field (instr k v : Z) :
  keeps cond_ok (store_reg (field instr k R_BITMASK) v).
Proof.
  apply keeps_store_reg_other.
  pose proof (field_reg_range instr k). unfold R_COND. lia.
Qed.

(** A store of a flag to COND yields a good state from any state. *)
Lemma store_flag_cond_ok (c : Z) (s : machine) :
  is_flag c ->
  match store_reg R_COND c s with
  | Ok _ s' => cond_ok s'
  | Aborted s' => cond_ok s'
  | Undefined => True
  end.
Proof.
  intros Hf. unfold store_reg, in_bounds.
  destruct (Z.leb_spec 0 R_COND) as [_|]; [|exact I].
  destruct (Z.ltb_spec R_COND (Z.of_nat (length (reg s)))) as [Hlt|]; [|exact I].
  simpl. apply (cond_ok_intro _ c); [|exact Hf].
  apply R_write_reg_eq. unfold R_COND in *. lia.
Qed.

Lemma load_reg_cases (i : Z) (s : machine) :
  load_reg i s = Undefined \/ exists v, load_reg i s = Ok v s.
Proof.
  unfold load_reg. destruct (i <? 0); [now left|].
  destruct (reg s !! Z.to_nat i) as [v|]; [right; now exists v | now left].
Qed.

(** [update_flags] yields a good state from any state. *)
Lemma update_flags_cond_ok (r : Z) (s : machine) :
  match update_flags r s with
  | Ok _ s' => cond_ok s'
  | Aborted s' => cond_ok s'
  | Undefined => True
  end.
Proof.
  unfold update_flags. rewrite bind_eq.
  destruct (load_reg_cases r s) as [Hl|[v Hl]]; rewrite Hl; [exact I|].
  destruct (v =? 0).
  - apply store_flag_cond_ok. unfold is_flag. auto.
  - rewrite bind_eq, Hl.
    destruct (negb (Z.shiftr v 15 =? 0));
      apply store_flag_cond_ok; unfold is_flag; auto.
Qed.

Lemma keeps_update_flags (r : Z) : keeps cond_ok (update_flags r).
Proof. intros s _. apply update_flags_cond_ok. Qed.

Lemma keeps_store_reg_named (i v : Z) :
  (i =? R_COND) = false -> keeps cond_ok (store_reg i v).
Proof. intros H. apply keeps_store_reg_other. now apply Z.eqb_neq. Qed.

Ltac keeps_cond_step :=
  lazymatch goal with
  | |- keeps _ (_ ≫= _) => apply keeps_bind; [|intros ?]
  | |- keeps _ (if _ then _ else _) => apply keeps_if
  | |- keeps _ (mret _) => apply keeps_ret
  | |- keeps _ abort => apply keeps_abort
  | |- keeps _ undefined => apply keeps_undefined
  | |- keeps _ (load_reg _) => apply keeps_load_reg
  | |- keeps _ (load_mem _) => apply keeps_load_mem
  | |- keeps _ key_ready => apply keeps_key_ready
  | |- keeps _ (store_mem _ _) => apply keeps_store_mem
  | |- keeps _ (putc _) => apply keeps_putc
  | |- keeps _ read_byte => apply keeps_read_byte
  | |- keeps _ stop_running => apply keeps_stop_running
  | |- keeps _ (update_flags _) => apply keeps_update_flags
  | |- keeps _ (store_reg (field _ _ R_BITMASK) _) =>
      apply keeps_store_reg_field
  | |- keeps _ (store_reg _ _) => apply keeps_store_reg_named; reflexivity
  end.

Ltac keeps_cond := repeat keeps_cond_step.

Lemma keeps_mem_read (a : Z) : keeps cond_ok (mem_read a).
Proof. unfold mem_read. keeps_cond. Qed.

Lemma keeps_mem_write (a v : Z) : keeps cond_ok (mem_write a v).
Proof. unfold mem_write. keeps_cond. Qed.

Lemma keeps_put_bytes (bs : list Z) : keeps cond_ok (put_bytes bs).
Proof. induction bs as [|b bs IH]; simpl; keeps_cond. exact IH. Qed.

Lemma keeps_puts_loop (left : nat) (c : Z) : keeps cond_ok (puts_loop left c).
Proof.
  revert c. induction left as [|left IH]; intros c; simpl; keeps_cond.
  apply IH.
Qed.

Lemma keeps_putsp_loop (left : nat) (c : Z) :
  keeps cond_ok (putsp_loop left c).
Proof.
  revert c. induction left as [|left IH]; intros c; simpl; keeps_cond.
  apply IH.
Qed.

Lemma keeps_op_trap (instr : Z) : keeps cond_ok (op_trap instr).
Proof.
  unfold op_trap, trap_getc, trap_out, trap_puts, trap_in, trap_putsp,
    trap_halt.
  cbv zeta. keeps_cond;
    first [apply keeps_puts_loop | apply keeps_putsp_loop | apply keeps_put_bytes].
Qed.

Lemma keeps_exec_instr (instr : Z) : keeps cond_ok (exec_instr instr).
Proof.
  unfold exec_instr, op_add, op_and, op_not, op_br, op_jmp, op_jsr, op_ld,
    op_ldi, op_ldr, op_lea, op_st, op_sti, op_str.
  cbv zeta. keeps_cond;
    first [apply keeps_mem_read | apply keeps_mem_write | apply keeps_op_trap].
Qed.

Lemma keeps_fetch : keeps cond_ok fetch.
Proof. unfold fetch. keeps_cond. apply keeps_mem_read. Qed.

Lemma keeps_step : keeps cond_ok step.
Proof. unfold step. keeps_cond; [apply keeps_fetch | apply keeps_exec_instr]. Qed.

Lemma keeps_run (n : nat) : keeps cond_ok (run n).
Proof.
  induction n as [|n IH]; simpl; [apply keeps_ret|].
  intros s Hs. destruct (running s); [|exact Hs].
  revert s Hs. fold (keeps cond_ok (step;; run n)).
  apply keeps_bind; [apply keeps_step | intros _; exact IH].
Qed.

(** ** Flag-updating instructions on well-formed states *)

Lemma hoare_bind {A B} (P : machine -> Prop) (m : M A)
    (Q : A -> machine -> Prop) (k : A -> M B) (T : B -> machine -> Prop) :
  hoare P m Q -> (forall a, hoare (Q a) (k a) T) -> hoare P (m ≫= k) T.
Proof.
  intros Hm Hk s Hs. destruct (Hm s Hs) as (a & s1 & Hrun & Hq).
  rewrite (bind_Ok _ _ _ _ _ Hrun). exact (Hk a s1 Hq).
Qed.

Lemma hoare_assume {A} (P : machine -> Prop) (phi : Prop) (m : M A)
    (Q : A -> machine -> Prop) :
  (phi -> hoare P m Q) -> hoare (fun s => P s /\ phi) m Q.
Proof. intros H s [Hs Hphi]. exact (H Hphi s Hs). Qed.

Lemma hoare_if {A} (P : machine -> Prop) (b : bool) (m1 m2 : M A)
    (Q : A -> machine -> Prop) :
  hoare P m1 Q -> hoare P m2 Q -> hoare P (if b then m1 else m2) Q.
Proof. now destruct b. Qed.

Lemma hoare_load_reg (i : Z) :
  0 <= i < 10 ->
  hoare well_formed (load_reg i)
    (fun v s => well_formed s /\ 0 <= v < 2 ^ 16).
Proof.
  intros Hi s Hs. pose proof (wf_reg_len s Hs) as Hlen.
  destruct (R_defined s i) as [v Hv]; [lia|].
  exists v, s. split; [apply load_reg_Ok; [lia | exact Hv]|].
  split; [exact Hs | exact (wf_R_word s i v Hs Hv)].
Qed.

Lemma hoare_store_reg (i v : Z) :
  0 <= i < 10 -> 0 <= v < 2 ^ 16 ->
  hoare well_formed (store_reg i v) (fun _ s => well_formed s).
Proof.
  intros Hi Hv s Hs. pose proof (wf_reg_len s Hs) as Hlen.
  exists tt, (write_reg i v s).
  split; [apply store_reg_Ok; lia | now apply wf_write_reg].
Qed.

Lemma wf_read_byte (s : machine) :
  wf s = true ->
  exists b s',
    read_byte s = Ok b s' /\ wf s' = true /\ 0 <= b < 2 ^ 16
    /\ memory s' = memory s /\ reg s' = reg s.
Proof.
  intros Hs. pose proof (wf_unpack s Hs) as (Hm & Hr & Hmw & Hrw & Hb).
  unfold read_byte. destruct (stdin s) as [|b rest] eqn:Hin.
  - exists 0, s. repeat split; try lia. exact Hs.
  - simpl in Hb. apply andb_true_iff in Hb as [Hbyte Hrest].
    apply is_byte_spec in Hbyte.
    exists b, (set_stdin rest s). repeat split; try lia.
    now apply wf_pack.
Qed.

Lemma mem_read_total (s : machine) (a : Z) :
  wf s = true -> 0 <= a < 2 ^ 16 ->
  exists v s',
    mem_read a s = Ok v s' /\ wf s' = true /\ 0 <= v < 2 ^ 16
    /\ reg s' = reg s.
Proof.
  intros Hs Ha.
  assert (Hload : forall t, wf t = true -> reg t = reg s ->
            exists v s', load_mem a t = Ok v s' /\ wf s' = true
                         /\ 0 <= v < 2 ^ 16 /\ reg s' = reg s).
  { intros t Ht Hreg. pose proof (wf_mem_len t Ht) as Hlen.
    destruct (mem_defined t a) as [v Hv]; [lia|].
    exists v, t. split; [apply load_mem_Ok; [lia | exact Hv]|].
    split; [exact Ht|]. split; [exact (wf_mem_word t a v Ht Hv) | exact Hreg]. }
  pose proof (wf_mem_len s Hs) as Hlen.
  unfold mem_read. destruct (a =? MR_KBSR).
  - rewrite bind_eq. rewrite (bind_eq key_ready). unfold key_ready at 1.
    destruct (stdin s) as [|b0 rest0] eqn:Hin.
    + rewrite (store_mem_Ok s) by (unfold MR_KBSR; lia).
      apply Hload; [apply wf_write_mem; [exact Hs | lia] | reflexivity].
    + rewrite bind_eq.
      rewrite (store_mem_Ok s) by (unfold MR_KBSR; lia).
      set (s1 := write_mem MR_KBSR 0x8000 s).
      assert (Hs1 : wf s1 = true) by (apply wf_write_mem; [exact Hs | lia]).
      destruct (wf_read_byte s1 Hs1) as (b & s2 & Hrd & Hs2 & Hb & Hmem2 & Hreg2).
      rewrite bind_eq, Hrd.
      rewrite (store_mem_Ok s2)
        by (rewrite Hmem2; unfold s1, write_mem; simpl;
            rewrite length_insert; unfold MR_KBDR; lia).
      apply Hload; [apply wf_write_mem; [exact Hs2 | exact Hb]|].
      unfold write_mem. simpl. rewrite Hreg2. reflexivity.
  - rewrite bind_eq. simpl. apply Hload; [exact Hs | reflexivity].
Qed.

Lemma hoare_mem_read (a : Z) :
  0 <= a < 2 ^ 16 ->
  hoare well_formed (mem_read a)
    (fun v s => well_formed s /\ 0 <= v < 2 ^ 16).
Proof.
  intros Ha s Hs.
  destruct (mem_read_total s a Hs Ha) as (v & s' & Hrun & Hs' & Hv & _).
  now exists v, s'.
Qed.

Lemma hoare_update_flags (r : Z) :
  0 <= r < 10 ->
  hoare well_formed (update_flags r) (fun _ s => cond_ok s).
Proof.
  intros Hr s Hs. pose proof (wf_reg_len s Hs) as Hlen.
  destruct (R_defined s r) as [v Hv]; [lia|].
  exists tt, (write_reg R_COND (sign_flag v) s). split.
  - apply update_flags_Ok; [lia | exact Hv | exact (wf_R_word s r v Hs Hv)|].
    unfold R_COND. lia.
  - apply (cond_ok_intro _ (sign_flag v)); [|apply sign_flag_is_flag].
    apply R_write_reg_eq. unfold R_COND. lia.
Qed.

Ltac hoare_wf_step :=
  cbv beta;
  lazymatch goal with
  | |- hoare (fun s => @?P s /\ ?phi) _ _ =>
      apply (hoare_assume P phi); intros ?
  | |- hoare _ (_ ≫= _) _ => eapply hoare_bind; [|intros ?]
  | |- hoare _ (if _ then _ else _) _ => apply hoare_if
  | |- hoare _ (load_reg _) _ => apply hoare_load_reg
  | |- hoare _ (mem_read _) _ => apply hoare_mem_read
  | |- hoare _ (store_reg _ _) _ => apply hoare_store_reg
  | |- hoare _ (update_flags _) _ => apply hoare_update_flags
  | |- 0 <= u16 _ < 2 ^ 16 => apply u16_range
  | |- 0 <= field ?i ?k R_BITMASK < 10 =>
      pose proof (field_reg_range i k); lia
  | |- 0 <= Z.land ?i R_BITMASK < 10 =>
      pose proof (land_reg_range i); lia
  | |- 0 <= R_PC < 10 => unfold R_PC; lia
  | |- 0 <= _ < 2 ^ 16 => assumption
  end.

Lemma flag_updating_instr_total (instr : Z) :
  updates_flags (Z.shiftr instr 12) = true ->
  hoare well_formed (exec_instr instr) (fun _ s => cond_ok s).
Proof.
  intros Hop. unfold exec_instr. cbv zeta.
  unfold updates_flags in Hop.
  destruct (Z.shiftr instr 12 =? OP_ADD) eqn:E1;
    [unfold op_add; cbv zeta; repeat hoare_wf_step|].
  destruct (Z.shiftr instr 12 =? OP_AND) eqn:E2;
    [unfold op_and; cbv zeta; repeat hoare_wf_step|].
  destruct (Z.shiftr instr 12 =? OP_NOT) eqn:E3;
    [unfold op_not; cbv zeta; repeat hoare_wf_step|].
  destruct (Z.shiftr instr 12 =? OP_LD) eqn:E4.
  { apply Z.eqb_eq in E4. rewrite E4. simpl.
    unfold op_ld; cbv zeta; repeat hoare_wf_step. }
  destruct (Z.shiftr instr 12 =? OP_LDI) eqn:E5.
  { apply Z.eqb_eq in E5. rewrite E5. simpl.
    unfold op_ldi; cbv zeta; repeat hoare_wf_step. }
  destruct (Z.shiftr instr 12 =? OP_LDR) eqn:E6.
  { apply Z.eqb_eq in E6. rewrite E6. simpl.
    unfold op_ldr; cbv zeta; repeat hoare_wf_step. }
  destruct (Z.shiftr instr 12 =? OP_LEA) eqn:E7.
  { apply Z.eqb_eq in E7. rewrite E7. simpl.
    unfold op_lea; cbv zeta; repeat hoare_wf_step. }
  discriminate Hop.
Qed.

(** C6. COND holds exactly one of FL_NEG, FL_ZRO, FL_POS, hence exactly one
    bit: when [main] enters the loop (where it is FL_ZRO), after every
    instruction that updates the flags, after any turn of the loop started
    from a state where it holds, and so after any number of turns from the
    start. *)
Theorem COND_holds_exactly_one_flag
    (image input : list Z) (n : nat) (instr : Z) (s : machine) :
  (R (boot image input) R_COND = Some FL_ZRO /\ cond_ok (boot image input))
  /\ (wf s = true -> updates_flags (Z.shiftr instr 12) = true ->
      exists s', exec_instr instr s = Ok tt s' /\ cond_ok s')
  /\ (cond_ok s ->
      match step s with
      | Ok _ s' => cond_ok s'
      | Aborted s' => cond_ok s'
      | Undefined => True
      end)
  /\ match run n (boot image input) with
     | Ok _ s' => cond_ok s'
     | Aborted s' => cond_ok s'
     | Undefined => True
     end.
Proof.
  assert (Hboot : cond_ok (boot image input)).
  { apply (cond_ok_intro _ FL_ZRO); [reflexivity|]. unfold is_flag. auto. }
  split; [split; [reflexivity | exact Hboot]|].
  split; [|split].
  - intros Hwf Hop.
    destruct (flag_updating_instr_total instr Hop s Hwf) as ([] & s' & Hrun & Hc).
    now exists s'.
  - apply keeps_step.
  - now apply keeps_run.
Qed.

Lemma COND_holds_exactly_one_flag_witness :
  exists s',
    exec_instr 0x1021 (write_reg R_R0 0x7FFF (boot blank [])) = Ok tt s'
    /\ cond_ok s'.
Proof.
  destruct (COND_holds_exactly_one_flag blank [] 1 0x1021
              (write_reg R_R0 0x7FFF (boot blank [])))
    as (_ & Hinstr & _ & _).
  apply Hinstr.
  - vm_compute. reflexivity.
  - reflexivity.
Defined.

(** * Further properties of the interpreter *)

(** ** Offsets as signed numbers *)

Lemma u16_small (x : Z) : 0 <= x < 2 ^ 16 -> u16 x = x.
Proof. intros H. unfold u16. now apply Z.mod_small. Qed.

Lemma testbit_top_true (v n : Z) :
  1 <= n -> 0 <= v < 2 ^ n -> Z.testbit v (n - 1) = true -> 2 ^ (n - 1) <= v.
Proof.
  intros Hn Hv Hb.
  destruct (Z_lt_le_dec v (2 ^ (n - 1))) as [Hlt|]; [|assumption].
  rewrite (small_testbit v (n - 1) (n - 1)) in Hb by lia. discriminate.
Qed.

Lemma testbit_top_false (v n : Z) :
  1 <= n -> 0 <= v < 2 ^ n -> Z.testbit v (n - 1) = false -> v < 2 ^ (n - 1).
Proof.
  intros Hn Hv Hb.
  destruct (Z_lt_le_dec v (2 ^ (n - 1))) as [|Hge]; [assumption|].
  assert (Hq : v / 2 ^ (n - 1) = 1).
  { assert (H2 : 2 ^ n = 2 * 2 ^ (n - 1))
      by (rewrite <- Z.pow_succ_r by lia; f_equal; lia).
    assert (Hpos : 0 < 2 ^ (n - 1)) by (apply Z.pow_pos_nonneg; lia).
    apply Z.le_antisymm.
    - apply Z.lt_succ_r. apply Z.div_lt_upper_bound; lia.
    - apply Z.div_le_lower_bound; lia. }
  rewrite Z.testbit_false in Hb by lia. rewrite Hq in Hb. discriminate.
Qed.

Lemma sign_extend_word (v n : Z) :
  1 <= n <= 16 -> 0 <= v < 2 ^ n -> 0 <= sign_extend v n < 2 ^ 16.
Proof.
  intros Hn Hv.
  assert (Hp : 2 ^ n <= 2 ^ 16) by (apply Z.pow_le_mono_r; lia).
  unfold sign_extend.
  destruct (Z.land (Z.shiftr v (n - 1)) 1 =? 0); [lia | apply u16_range].
Qed.

Lemma add_sign_extend (base v n : Z) :
  1 <= n <= 16 -> 0 <= v < 2 ^ n ->
  u16 (base + sign_extend v n) = u16 (base + signed v n).
Proof.
  intros Hn Hv.
  unfold signed, sign_extend. rewrite sign_bit_test by lia.
  destruct (Z.testbit v (n - 1)) eqn:Hb; simpl; [|reflexivity].
  rewrite u16_lor_int32, lor_high_add by lia. unfold u16.
  rewrite Zplus_mod_idemp_r.
  replace (base + (v + 0xFFFF * 2 ^ n))
    with (base + (v - 2 ^ n) + 2 ^ n * 2 ^ 16) by lia.
  now rewrite Z_mod_plus_full.
Qed.

(** X1. For a field [v] of [n] bits, n from 1 to 16, [sign_extend v n] is a
    16-bit word, and adding it to any [base] modulo 2^16 is adding the
    two's-complement value of the field, which lies from -2^(n-1) up to
    2^(n-1) - 1. *)
Theorem sign_extend_is_signed_offset (base v n : Z) :
  1 <= n <= 16 -> 0 <= v < 2 ^ n ->
  0 <= sign_extend v n < 2 ^ 16
  /\ u16 (base + sign_extend v n) = u16 (base + signed v n)
  /\ - 2 ^ (n - 1) <= signed v n < 2 ^ (n - 1).
Proof.
  intros Hn Hv. split; [now apply sign_extend_word|].
  split; [now apply add_sign_extend|].
  assert (H2 : 2 ^ n = 2 * 2 ^ (n - 1))
    by (rewrite <- Z.pow_succ_r by lia; f_equal; lia).
  assert (0 < 2 ^ (n - 1)) by (apply Z.pow_pos_nonneg; lia).
  unfold signed. destruct (Z.testbit v (n - 1)) eqn:Hb.
  - pose proof (testbit_top_true v n ltac:(lia) Hv Hb). lia.
  - pose proof (testbit_top_false v n ltac:(lia) Hv Hb). lia.
Qed.

Lemma sign_extend_is_signed_offset_witness :
  u16 (0x3001 + sign_extend 0x1FF 9) = u16 (0x3001 + signed 0x1FF 9)
  /\ signed 0x1FF 9 = -1.
Proof.
  split; [|reflexivity].
  apply (sign_extend_is_signed_offset 0x3001 0x1FF 9); lia.
Defined.

(** ** AND *)

Lemma exec_instr_AND (instr : Z) :
  Z.shiftr instr 12 = OP_AND -> exec_instr instr = op_and instr.
Proof. intros H. unfold exec_instr. now rewrite H. Qed.

Lemma land_word (a b : Z) : 0 <= a < 2 ^ 16 -> u16 (Z.land a b) = Z.land a b.
Proof.
  intros Ha. unfold u16.
  rewrite <- (Z.mod_small a (2 ^ 16)) at 2 by lia.
  rewrite <- !Z.land_ones by lia.
  rewrite <- !Z.land_assoc. f_equal. apply Z.land_comm.
Qed.

Lemma land_ones_range (x n : Z) : 0 <= n -> 0 <= Z.land x (Z.ones n) < 2 ^ n.
Proof. intros Hn. rewrite Z.land_ones by lia. apply Z.mod_pos_bound. lia. Qed.

(** X2. On a well-formed state AND (opcode 0x5) stores in DR the bitwise and
    of reg[SR1] with its second operand, sets COND from the sign of that word
    and changes nothing else; with the immediate 0 it clears DR and sets
    COND = Z. *)
Theorem AND_masks_and_flags (s : machine) (instr a b : Z) :
  wf s = true ->
  Z.shiftr instr 12 = OP_AND ->
  R s (field instr 6 R_BITMASK) = Some a ->
  (Z.testbit instr 5 = true -> b = sign_extend (Z.land instr 0x1F) 5) ->
  (Z.testbit instr 5 = false -> R s (Z.land instr R_BITMASK) = Some b) ->
  exec_instr instr s =
    Ok tt (write_reg R_COND (sign_flag (Z.land a b))
             (write_reg (field instr 9 R_BITMASK) (Z.land a b) s))
  /\ (Z.land instr 0x3F = 0x20 ->
      Z.land a b = 0 /\ sign_flag (Z.land a b) = FL_ZRO).
Proof.
  intros Hwf Hop Ha Himm Hreg.
  pose proof (wf_reg_len s Hwf) as Hlen.
  pose proof (wf_R_word s _ _ Hwf Ha) as Haw.
  pose proof (field_reg_range instr 9) as Hdr.
  pose proof (field_reg_range instr 6) as Hsr.
  pose proof (land_reg_range instr) as Hsr2.
  split.
  - rewrite exec_instr_AND by assumption. unfold op_and.
    destruct (store_then_flags s (field instr 9 R_BITMASK) (Z.land a b))
      as (s' & Hrun & Hs' & _).
    { exact Hlen. } { lia. }
    { rewrite <- (land_word a b) by assumption. apply u16_range. }
    rewrite <- Hs', <- Hrun, field_bool by lia.
    destruct (Z.testbit instr 5); simpl.
    + rewrite <- Himm by reflexivity. rewrite !bind_eq.
      rewrite (load_reg_Ok s _ a) by (lia || assumption).
      now rewrite land_word.
    + rewrite !bind_eq.
      rewrite (load_reg_Ok s _ a) by (lia || assumption).
      rewrite !bind_eq.
      rewrite (load_reg_Ok s _ b) by (lia || auto).
      now rewrite land_word.
  - intros Hz.
    assert (Hbit : Z.testbit instr 5 = true).
    { assert (H5 : Z.testbit (Z.land instr 0x3F) 5 = true) by now rewrite Hz.
      rewrite Z.land_spec in H5. now apply andb_true_iff in H5. }
    assert (Hlow : Z.land instr 0x1F = 0).
    { change 0x1F with (Z.land 0x3F 0x1F).
      now rewrite Z.land_assoc, Hz. }
    rewrite (Himm Hbit), Hlow.
    change (sign_extend 0 5) with 0. rewrite Z.land_0_r. now split.
Qed.

Lemma AND_masks_and_flags_witness :
  exec_instr 0x5260 (write_reg R_R1 0xFFFF (boot blank [])) =
    Ok tt (write_reg R_COND (sign_flag (Z.land 0xFFFF 0))
             (write_reg (field 0x5260 9 R_BITMASK) (Z.land 0xFFFF 0)
                (write_reg R_R1 0xFFFF (boot blank []))))
  /\ sign_flag (Z.land 0xFFFF 0) = FL_ZRO.
Proof.
  destruct (AND_masks_and_flags
              (write_reg R_R1 0xFFFF (boot blank [])) 0x5260 0xFFFF 0)
    as [Hrun Hz];
    [vm_compute; reflexivity | reflexivity | reflexivity | reflexivity
    | discriminate |].
  split; [exact Hrun | now apply Hz].
Defined.

(** ** BR *)

Lemma exec_instr_BR (instr : Z) :
  Z.shiftr instr 12 = OP_BR -> exec_instr instr = op_br instr.
Proof. intros H. unfold exec_instr. now rewrite H. Qed.

Lemma op_br_Ok (s : machine) (instr pc c : Z) :
  Z.of_nat (length (reg s)) = R_COUNT ->
  R s R_PC = Some pc -> R s R_COND = Some c ->
  op_br instr s =
    Ok tt (if br_taken instr c
           then write_reg R_PC
                  (u16 (pc + sign_extend (Z.land instr 0x1FF) 9)) s
           else s).
Proof.
  intros Hlen Hpc Hc. unfold op_br, br_taken, R_COUNT in *.
  rewrite (bind_Ok _ _ s s c) by (now apply load_reg_Ok).
  rewrite !field_bool, !negb_involutive by lia.
  destruct (Z.testbit instr 11 && (c =? FL_NEG)
            || Z.testbit instr 10 && (c =? FL_ZRO)
            || Z.testbit instr 9 && (c =? FL_POS)); [|reflexivity].
  rewrite (bind_Ok _ _ s s pc) by (now apply load_reg_Ok).
  apply store_reg_Ok. unfold R_PC. lia.
Qed.

(** X3. BR (opcode 0x0) changes nothing but PC, and PC only when a bit n, z, p
    of the instruction selects the flag that COND holds; PC then moves by the
    signed 9-bit offset, modulo 2^16.  With COND holding a flag, BRnzp always
    branches. *)
Theorem BR_moves_PC_on_selected_flag (s : machine) (instr pc c : Z) :
  Z.of_nat (length (reg s)) = R_COUNT ->
  Z.shiftr instr 12 = OP_BR ->
  R s R_PC = Some pc -> R s R_COND = Some c ->
  exec_instr instr s =
    Ok tt (if br_taken instr c
           then write_reg R_PC (u16 (pc + signed (Z.land instr 0x1FF) 9)) s
           else s)
  /\ (is_flag c -> Z.testbit instr 11 = true -> Z.testbit instr 10 = true ->
      Z.testbit instr 9 = true -> br_taken instr c = true).
Proof.
  intros Hlen Hop Hpc Hc. split.
  - rewrite exec_instr_BR by assumption.
    rewrite (op_br_Ok s instr pc c Hlen Hpc Hc).
    rewrite (add_sign_extend pc (Z.land instr 0x1FF) 9);
      [reflexivity | lia | apply (land_ones_range instr 9); lia].
  - intros Hf Hn Hz Hp. unfold br_taken. rewrite Hn, Hz, Hp. simpl.
    destruct Hf as [-> | [-> | ->]]; reflexivity.
Qed.

Lemma BR_moves_PC_on_selected_flag_witness :
  exec_instr 0x0402 (write_reg R_PC 0x3001 (boot blank [])) =
    Ok tt (write_reg R_PC 0x3003 (write_reg R_PC 0x3001 (boot blank []))).
Proof.
  destruct (BR_moves_PC_on_selected_flag
              (write_reg R_PC 0x3001 (boot blank [])) 0x0402 0x3001 FL_ZRO)
    as [Hrun _]; [reflexivity ..|].
  exact Hrun.
Defined.

(** X4. A word below 0x0200, such as the zero word of a blank memory, is a BR
    that selects no flag: fetched from an address other than KBSR it only
    advances PC by one modulo 2^16. *)
Theorem blank_word_only_advances_PC (s : machine) (instr pc : Z) :
  wf s = true -> R s R_PC = Some pc -> pc <> MR_KBSR ->
  mem s pc = Some instr -> 0 <= instr < 0x0200 ->
  step s = Ok tt (write_reg R_PC ((pc + 1) mod 2 ^ 16) s).
Proof.
  intros Hwf Hpc Hkb Hi Hsmall. unfold step.
  rewrite (bind_Ok _ _ _ _ _ (fetch_Ok s pc instr Hwf Hpc Hkb Hi)).
  pose proof (wf_reg_len s Hwf) as Hlen.
  set (s1 := write_reg R_PC (u16 (pc + 1)) s).
  assert (Hop : Z.shiftr instr 12 = OP_BR).
  { rewrite Z.shiftr_div_pow2 by lia. apply Z.div_small. lia. }
  rewrite exec_instr_BR by assumption.
  destruct (R_defined s1 R_COND) as [c Hc].
  { unfold s1. rewrite length_write_reg. unfold R_COND. lia. }
  rewrite (op_br_Ok s1 instr (u16 (pc + 1)) c).
  - unfold br_taken.
    now rewrite !(small_testbit instr 9) by lia.
  - unfold s1. now rewrite length_write_reg.
  - apply R_write_reg_eq. unfold R_PC. lia.
  - exact Hc.
Qed.

Lemma blank_word_only_advances_PC_witness :
  step (write_reg R_PC 0xFFFF (boot blank [])) =
    Ok tt (write_reg R_PC 0 (write_reg R_PC 0xFFFF (boot blank []))).
Proof.
  apply (blank_word_only_advances_PC
           (write_reg R_PC 0xFFFF (boot blank [])) 0 0xFFFF);
    [vm_compute; reflexivity | reflexivity | discriminate
    | vm_compute; reflexivity | lia].
Defined.

(** ** LD, LDI, LDR, LEA *)

Lemma exec_instr_LD (instr : Z) :
  Z.shiftr instr 12 = OP_LD -> exec_instr instr = op_ld instr.
Proof. intros H. unfold exec_instr. now rewrite H. Qed.

Lemma exec_instr_LDI (instr : Z) :
  Z.shiftr instr 12 = OP_LDI -> exec_instr instr = op_ldi instr.
Proof. intros H. unfold exec_instr. now rewrite H. Qed.

Lemma exec_instr_LDR (instr : Z) :
  Z.shiftr instr 12 = OP_LDR -> exec_instr instr = op_ldr instr.
Proof. intros H. unfold exec_instr. now rewrite H. Qed.

Lemma exec_instr_LEA (instr : Z) :
  Z.shiftr instr 12 = OP_LEA -> exec_instr instr = op_lea instr.
Proof. intros H. unfold exec_instr. now rewrite H. Qed.

(** The tail shared by the four cases: [reg[r0] = v; update_flags(r0);]. *)
Lemma load_tail (s : machine) (instr v : Z) :
  wf s = true -> 0 <= v < 2 ^ 16 ->
  (store_reg (field instr 9 R_BITMASK) v;;
   update_flags (field instr 9 R_BITMASK)) s =
  Ok tt (write_reg R_COND (sign_flag v)
           (write_reg (field instr 9 R_BITMASK) v s)).
Proof.
  intros Hwf Hv.
  pose proof (field_reg_range instr 9) as Hdr.
  destruct (store_then_flags s (field instr 9 R_BITMASK) v)
    as (s' & Hrun & Hs' & _);
    [exact (wf_reg_len s Hwf) | lia | exact Hv |].
  now rewrite Hrun, Hs'.
Qed.

Lemma op_ld_Ok (s : machine) (instr pc v : Z) :
  wf s = true -> R s R_PC = Some pc ->
  u16 (pc + sign_extend (Z.land instr 0x1FF) 9) <> MR_KBSR ->
  mem s (u16 (pc + sign_extend (Z.land instr 0x1FF) 9)) = Some v ->
  op_ld instr s =
  Ok tt (write_reg R_COND (sign_flag v)
           (write_reg (field instr 9 R_BITMASK) v s)).
Proof.
  intros Hwf Hpc Hkb Hv. unfold op_ld.
  rewrite (bind_Ok _ _ s s pc) by (now apply load_reg_Ok).
  rewrite (bind_Ok _ _ s s v)
    by (apply mem_read_plain; [apply u16_range | assumption | assumption]).
  apply load_tail; [assumption | exact (wf_mem_word s _ _ Hwf Hv)].
Qed.

Lemma op_ldr_Ok (s : machine) (instr b v : Z) :
  wf s = true -> R s (field instr 6 R_BITMASK) = Some b ->
  u16 (b + sign_extend (Z.land instr 0x3F) 6) <> MR_KBSR ->
  mem s (u16 (b + sign_extend (Z.land instr 0x3F) 6)) = Some v ->
  op_ldr instr s =
  Ok tt (write_reg R_COND (sign_flag v)
           (write_reg (field instr 9 R_BITMASK) v s)).
Proof.
  intros Hwf Hb Hkb Hv. unfold op_ldr.
  pose proof (field_reg_range instr 6) as Hr.
  rewrite (bind_Ok _ _ s s b) by (apply load_reg_Ok; [lia | assumption]).
  rewrite (bind_Ok _ _ s s v)
    by (apply mem_read_plain; [apply u16_range | assumption | assumption]).
  apply load_tail; [assumption | exact (wf_mem_word s _ _ Hwf Hv)].
Qed.

Lemma op_lea_Ok (s : machine) (instr pc : Z) :
  wf s = true -> R s R_PC = Some pc ->
  op_lea instr s =
  Ok tt (write_reg R_COND
           (sign_flag (u16 (pc + sign_extend (Z.land instr 0x1FF) 9)))
           (write_reg (field instr 9 R_BITMASK)
              (u16 (pc + sign_extend (Z.land instr 0x1FF) 9)) s)).
Proof.
  intros Hwf Hpc. unfold op_lea.
  rewrite (bind_Ok _ _ s s pc) by (now apply load_reg_Ok).
  apply load_tail; [assumption | apply u16_range].
Qed.

Lemma offset9 (instr pc : Z) :
  u16 (pc + sign_extend (Z.land instr 0x1FF) 9) =
  u16 (pc + signed (Z.land instr 0x1FF) 9).
Proof.
  apply add_sign_extend; [lia | apply (land_ones_range instr 9); lia].
Qed.

Lemma offset6 (instr b : Z) :
  u16 (b + sign_extend (Z.land instr 0x3F) 6) =
  u16 (b + signed (Z.land instr 0x3F) 6).
Proof.
  apply add_sign_extend; [lia | apply (land_ones_range instr 6); lia].
Qed.

(** X5. On a well-formed state LD (opcode 0x2) loads into DR the word at PC
    plus the signed 9-bit offset (modulo 2^16, PC already incremented), sets
    COND from its sign, and changes nothing else, when that address is not
    the keyboard status register. *)
Theorem LD_loads_PC_relative_word (s : machine) (instr pc v : Z) :
  wf s = true -> Z.shiftr instr 12 = OP_LD -> R s R_PC = Some pc ->
  u16 (pc + signed (Z.land instr 0x1FF) 9) <> MR_KBSR ->
  mem s (u16 (pc + signed (Z.land instr 0x1FF) 9)) = Some v ->
  exec_instr instr s =
    Ok tt (write_reg R_COND (sign_flag v)
             (write_reg (field instr 9 R_BITMASK) v s)).
Proof.
  intros Hwf Hop Hpc Hkb Hv. rewrite <- offset9 in Hkb, Hv.
  rewrite exec_instr_LD by assumption. now apply (op_ld_Ok s instr pc v).
Qed.

Lemma LD_loads_PC_relative_word_witness :
  exec_instr 0x21FF
    (write_reg R_PC 0x3001 (boot (place 0x3000 [0x21FF] blank) [])) =
  Ok tt (write_reg R_COND (sign_flag 0x21FF)
           (write_reg (field 0x21FF 9 R_BITMASK) 0x21FF
              (write_reg R_PC 0x3001
                 (boot (place 0x3000 [0x21FF] blank) [])))).
Proof.
  apply (LD_loads_PC_relative_word
           (write_reg R_PC 0x3001 (boot (place 0x3000 [0x21FF] blank) []))
           0x21FF 0x3001 0x21FF);
    [vm_compute; reflexivity | reflexivity | reflexivity | discriminate
    | vm_compute; reflexivity].
Defined.

(** X6. On a well-formed state LDI (opcode 0xA) reads a pointer at PC plus the
    signed 9-bit offset and loads into DR the word the pointer addresses,
    sets COND from its sign, and changes nothing else, when neither address
    is the keyboard status register. *)
Theorem LDI_loads_through_pointer (s : machine) (instr pc p v : Z) :
  wf s = true -> Z.shiftr instr 12 = OP_LDI -> R s R_PC = Some pc ->
  u16 (pc + signed (Z.land instr 0x1FF) 9) <> MR_KBSR ->
  mem s (u16 (pc + signed (Z.land instr 0x1FF) 9)) = Some p ->
  p <> MR_KBSR -> mem s p = Some v ->
  exec_instr instr s =
    Ok tt (write_reg R_COND (sign_flag v)
             (write_reg (field instr 9 R_BITMASK) v s)).
Proof.
  intros Hwf Hop Hpc Hkb Hp Hkb2 Hv. rewrite <- offset9 in Hkb, Hp.
  rewrite exec_instr_LDI by assumption. unfold op_ldi.
  rewrite (bind_Ok _ _ s s pc) by (now apply load_reg_Ok).
  rewrite (bind_Ok _ _ s s p)
    by (apply mem_read_plain; [apply u16_range | assumption | assumption]).
  pose proof (wf_mem_word s _ _ Hwf Hp) as Hpw.
  rewrite (bind_Ok _ _ s s v)
    by (apply mem_read_plain; [lia | assumption | assumption]).
  apply load_tail; [assumption | exact (wf_mem_word s _ _ Hwf Hv)].
Qed.

Lemma LDI_loads_through_pointer_witness :
  exec_instr 0xA001
    (write_reg R_PC 0x3001
       (boot (place 0x4000 [0xBEEF] (place 0x3002 [0x4000] blank)) [])) =
  Ok tt (write_reg R_COND (sign_flag 0xBEEF)
           (write_reg (field 0xA001 9 R_BITMASK) 0xBEEF
              (write_reg R_PC 0x3001
                 (boot (place 0x4000 [0xBEEF] (place 0x3002 [0x4000] blank))
                    [])))).
Proof.
  apply (LDI_loads_through_pointer
           (write_reg R_PC 0x3001
              (boot (place 0x4000 [0xBEEF] (place 0x3002 [0x4000] blank)) []))
           0xA001 0x3001 0x4000 0xBEEF);
    [vm_compute; reflexivity | reflexivity | reflexivity | discriminate
    | vm_compute; reflexivity | discriminate | vm_compute; reflexivity].
Defined.

(** X7. On a well-formed state LDR (opcode 0x6) loads into DR the word at
    reg[BaseR] plus the signed 6-bit offset (modulo 2^16), sets COND from its
    sign, and changes nothing else, when that address is not the keyboard
    status register. *)
Theorem LDR_loads_base_relative_word (s : machine) (instr b v : Z) :
  wf s = true -> Z.shiftr instr 12 = OP_LDR ->
  R s (field instr 6 R_BITMASK) = Some b ->
  u16 (b + signed (Z.land instr 0x3F) 6) <> MR_KBSR ->
  mem s (u16 (b + signed (Z.land instr 0x3F) 6)) = Some v ->
  exec_instr instr s =
    Ok tt (write_reg R_COND (sign_flag v)
             (write_reg (field instr 9 R_BITMASK) v s)).
Proof.
  intros Hwf Hop Hb Hkb Hv. rewrite <- offset6 in Hkb, Hv.
  rewrite exec_instr_LDR by assumption. now apply (op_ldr_Ok s instr b v).
Qed.

Lemma LDR_loads_base_relative_word_witness :
  exec_instr 0x607F
    (write_reg R_R1 0x3001 (boot (place 0x3000 [0x607F] blank) [])) =
  Ok tt (write_reg R_COND (sign_flag 0x607F)
           (write_reg (field 0x607F 9 R_BITMASK) 0x607F
              (write_reg R_R1 0x3001
                 (boot (place 0x3000 [0x607F] blank) [])))).
Proof.
  apply (LDR_loads_base_relative_word
           (write_reg R_R1 0x3001 (boot (place 0x3000 [0x607F] blank) []))
           0x607F 0x3001 0x607F);
    [vm_compute; reflexivity | reflexivity | reflexivity | discriminate
    | vm_compute; reflexivity].
Defined.

(** X8. LEA (opcode 0xE) puts the address PC plus the signed 9-bit offset
    (modulo 2^16) in DR and sets COND from it, reading no memory; an LDR from
    that register with offset 0 then loads the word at that address, the one
    an LD with the same PC and offset loads. *)
Theorem LEA_then_LDR_loads_addressed_word
    (s : machine) (lea ldr pc v : Z) :
  wf s = true -> R s R_PC = Some pc ->
  Z.shiftr lea 12 = OP_LEA -> Z.shiftr ldr 12 = OP_LDR ->
  field ldr 6 R_BITMASK = field lea 9 R_BITMASK ->
  Z.land ldr 0x3F = 0 ->
  u16 (pc + signed (Z.land lea 0x1FF) 9) <> MR_KBSR ->
  mem s (u16 (pc + signed (Z.land lea 0x1FF) 9)) = Some v ->
  exists s1,
    exec_instr lea s = Ok tt s1
    /\ R s1 (field lea 9 R_BITMASK) =
       Some (u16 (pc + signed (Z.land lea 0x1FF) 9))
    /\ memory s1 = memory s
    /\ exec_instr ldr s1 =
       Ok tt (write_reg R_COND (sign_flag v)
                (write_reg (field ldr 9 R_BITMASK) v s1)).
Proof.
  intros Hwf Hpc Hlea Hldr Hbase Hoff Hkb Hv.
  rewrite <- offset9 in *.
  set (a := u16 (pc + sign_extend (Z.land lea 0x1FF) 9)) in *.
  pose proof (field_reg_range lea 9) as Hdr.
  pose proof (wf_reg_len s Hwf) as Hlen.
  assert (Ha : 0 <= a < 2 ^ 16) by apply u16_range.
  exists (write_reg R_COND (sign_flag a)
            (write_reg (field lea 9 R_BITMASK) a s)).
  split; [rewrite exec_instr_LEA by assumption; now apply op_lea_Ok|].
  assert (Hr : R (write_reg R_COND (sign_flag a)
                    (write_reg (field lea 9 R_BITMASK) a s))
                 (field lea 9 R_BITMASK) = Some a).
  { rewrite R_write_reg_ne by (unfold R_COND; lia).
    apply R_write_reg_eq. lia. }
  split; [exact Hr|]. split; [reflexivity|].
  rewrite exec_instr_LDR by assumption.
  assert (Hsame : u16 (a + sign_extend (Z.land ldr 0x3F) 6) = a).
  { rewrite Hoff. change (sign_extend 0 6) with 0.
    rewrite Z.add_0_r. now apply u16_small. }
  apply (op_ldr_Ok _ ldr a v).
  - apply wf_write_reg; [apply wf_write_reg; assumption|].
    pose proof (sign_flag_is_flag a) as [-> | [-> | ->]]; vm_compute; split; congruence.
  - now rewrite Hbase.
  - now rewrite Hsame.
  - now rewrite Hsame.
Qed.

Lemma LEA_then_LDR_loads_addressed_word_witness :
  exists s1,
    exec_instr 0xE3FF
      (write_reg R_PC 0x3001 (boot (place 0x3000 [0xE3FF] blank) [])) =
    Ok tt s1
    /\ exec_instr 0x6440 s1 =
       Ok tt (write_reg R_COND (sign_flag 0xE3FF)
                (write_reg (field 0x6440 9 R_BITMASK) 0xE3FF s1)).
Proof.
  destruct (LEA_then_LDR_loads_addressed_word
              (write_reg R_PC 0x3001 (boot (place 0x3000 [0xE3FF] blank) []))
              0xE3FF 0x6440 0x3001 0xE3FF)
    as (s1 & Hlea & _ & _ & Hldr);
    [vm_compute; reflexivity | reflexivity | reflexivity | reflexivity
    | reflexivity | reflexivity | discriminate | vm_compute; reflexivity |].
  exists s1. split; assumption.
Defined.

(** ** JSR and RET *)

Lemma exec_instr_JMP (instr : Z) :
  Z.shiftr instr 12 = OP_JMP -> exec_instr instr = op_jmp instr.
Proof. intros H. unfold exec_instr. now rewrite H. Qed.

Lemma op_jsr_state (s : machine) (instr pc : Z) :
  Z.of_nat (length (reg s)) = R_COUNT -> R s R_PC = Some pc ->
  exists target,
    op_jsr instr s = Ok tt (write_reg R_PC target (write_reg R_R7 pc s)).
Proof.
  intros Hlen Hpc. unfold op_jsr, R_COUNT in *.
  rewrite (bind_Ok _ _ s s pc) by (now apply load_reg_Ok).
  set (s1 := write_reg R_R7 pc s).
  rewrite (bind_Ok _ _ s s1 tt) by (apply store_reg_Ok; unfold R_R7; lia).
  assert (Hlen1 : Z.of_nat (length (reg s1)) = 10)
    by (unfold s1; now rewrite length_write_reg).
  destruct (field instr 11 BOOL_BITMASK =? 0).
  - pose proof (field_reg_range instr 6) as Hb.
    destruct (R_defined s1 (field instr 6 R_BITMASK)) as [b Hbv]; [lia|].
    rewrite (bind_Ok _ _ s1 s1 b) by (apply load_reg_Ok; [lia | assumption]).
    exists b. apply store_reg_Ok. unfold R_PC. lia.
  - rewrite (bind_Ok _ _ s1 s1 pc)
      by (apply load_reg_Ok; [unfold R_R7; lia|];
          apply R_write_reg_eq; unfold R_R7; lia).
    eexists. apply store_reg_Ok. unfold R_PC. lia.
Qed.

Lemma op_jmp_Ok (s : machine) (instr b : Z) :
  Z.of_nat (length (reg s)) = R_COUNT ->
  R s (field instr 6 R_BITMASK) = Some b ->
  op_jmp instr s = Ok tt (write_reg R_PC b s).
Proof.
  intros Hlen Hb. unfold op_jmp, R_COUNT in *.
  pose proof (field_reg_range instr 6) as Hr.
  rewrite (bind_Ok _ _ s s b) by (apply load_reg_Ok; [lia | assumption]).
  apply store_reg_Ok. unfold R_PC. lia.
Qed.

(** X9. A JSR or JSRR followed, with R7 untouched, by a JMP through R7 (RET)
    brings PC back to the instruction after the JSR: after the pair PC and R7
    hold the PC the JSR started from, and R0..R6, COND, memory and the
    console are as before the JSR. *)
Theorem JSR_then_RET_returns (s : machine) (jsr ret pc : Z) :
  Z.of_nat (length (reg s)) = R_COUNT -> R s R_PC = Some pc ->
  Z.shiftr jsr 12 = OP_JSR ->
  Z.shiftr ret 12 = OP_JMP -> field ret 6 R_BITMASK = R_R7 ->
  exists s1 s2,
    exec_instr jsr s = Ok tt s1
    /\ exec_instr ret s1 = Ok tt s2
    /\ R s2 R_PC = Some pc
    /\ R s2 R_R7 = Some pc
    /\ (forall i, 0 <= i < 7 -> R s2 i = R s i)
    /\ R s2 R_COND = R s R_COND
    /\ outside_reg s2 = outside_reg s.
Proof.
  intros Hlen Hpc Hjsr Hret Hbase.
  destruct (op_jsr_state s jsr pc Hlen Hpc) as [t Hrun1].
  set (s1 := write_reg R_PC t (write_reg R_R7 pc s)) in *.
  assert (Hlen1 : Z.of_nat (length (reg s1)) = R_COUNT)
    by (unfold s1; now rewrite !length_write_reg).
  assert (H7 : R s1 R_R7 = Some pc).
  { unfold s1. rewrite R_write_reg_ne by (unfold R_PC, R_R7; lia).
    apply R_write_reg_eq. unfold R_R7, R_COUNT in *. lia. }
  exists s1, (write_reg R_PC pc s1).
  split; [now rewrite exec_instr_JSR|].
  split.
  { rewrite exec_instr_JMP by assumption.
    apply op_jmp_Ok; [assumption | now rewrite Hbase]. }
  unfold R_COUNT in *.
  split; [apply R_write_reg_eq; unfold R_PC; lia|].
  split; [now rewrite R_write_reg_ne by (unfold R_PC, R_R7; lia)|].
  split; [|split; [|reflexivity]].
  - intros i Hi. unfold s1.
    now rewrite !R_write_reg_ne by (unfold R_PC, R_R7; lia).
  - unfold s1.
    now rewrite !R_write_reg_ne by (unfold R_PC, R_R7, R_COND; lia).
Qed.

Lemma JSR_then_RET_returns_witness :
  exists s1 s2,
    exec_instr 0x4802 (write_reg R_PC 0x3001 (boot blank [])) = Ok tt s1
    /\ exec_instr 0xC1C0 s1 = Ok tt s2
    /\ R s2 R_PC = Some 0x3001.
Proof.
  destruct (JSR_then_RET_returns
              (write_reg R_PC 0x3001 (boot blank [])) 0x4802 0xC1C0 0x3001)
    as (s1 & s2 & H1 & H2 & Hpc & _); [reflexivity ..|].
  now exists s1, s2.
Defined.

(** ** The cases that end in abort() *)

(** X10. RTI (0x8) and the reserved opcode (0xD) reach [abort()] with the
    state as it was, a TRAP (0xF) never goes back to the loop whatever its
    vector, and therefore an instruction word goes back to the loop only with
    one of the other thirteen opcodes. *)
Theorem only_thirteen_opcodes_continue (s : machine) (instr : Z) :
  (Z.shiftr instr 12 = OP_RTI \/ Z.shiftr instr 12 = OP_RES ->
   exec_instr instr s = Aborted s)
  /\ (Z.shiftr instr 12 = OP_TRAP ->
      forall s', exec_instr instr s <> Ok tt s')
  /\ (forall s', exec_instr instr s = Ok tt s' ->
      Z.shiftr instr 12 <> OP_RTI /\ Z.shiftr instr 12 <> OP_RES
      /\ Z.shiftr instr 12 <> OP_TRAP).
Proof.
  assert (Hfatal : Z.shiftr instr 12 = OP_RTI \/ Z.shiftr instr 12 = OP_RES ->
                   exec_instr instr s = Aborted s).
  { intros [H|H]; unfold exec_instr; rewrite H; reflexivity. }
  split; [exact Hfatal|]. split.
  - intros Hop s'. now apply TRAP_never_continues.
  - intros s' Hrun. repeat split; intros Hop.
    + rewrite Hfatal in Hrun by now left. discriminate.
    + rewrite Hfatal in Hrun by now right. discriminate.
    + now apply (TRAP_never_continues instr s s').
Qed.

Lemma only_thirteen_opcodes_continue_witness :
  exec_instr 0x8000 (boot blank []) = Aborted (boot blank [])
  /\ exec_instr 0xD000 (boot blank []) = Aborted (boot blank []).
Proof.
  split.
  - apply (only_thirteen_opcodes_continue (boot blank []) 0x8000). now left.
  - apply (only_thirteen_opcodes_continue (boot blank []) 0xD000). now right.
Defined.

(** ** TRAP PUTS without a terminating zero *)

Lemma puts_loop_runs_off (fuel : nat) :
  forall (c : Z) (s : machine),
    0 <= c ->
    (forall a, c <= a < Z.of_nat (length (memory s)) -> mem s a <> Some 0) ->
    puts_loop fuel c s = Undefined.
Proof.
  induction fuel as [|fuel IH]; intros c s Hc Hnz; [reflexivity|].
  simpl puts_loop. rewrite bind_eq. unfold load_mem at 1.
  destruct (Z.ltb_spec c 0) as [|_]; [lia|].
  destruct (memory s !! Z.to_nat c) as [w|] eqn:Hw; [|reflexivity].
  assert (Hlt : c < Z.of_nat (length (memory s)))
    by (apply lookup_lt_Some in Hw; lia).
  destruct (Z.eqb_spec w 0) as [->|_].
  - exfalso. apply (Hnz c); [lia | exact Hw].
  - rewrite bind_eq. unfold putc at 1.
    apply IH; [lia|]. intros a Ha. apply (Hnz a).
    unfold set_stdout in Ha. simpl in Ha. lia.
Qed.

(** X11. The loop of TRAP PUTS has no bound of its own: when no word from
    address R0 to the end of [memory] is zero, the cursor leaves the array,
    which has no defined behaviour. *)
Theorem PUTS_without_zero_leaves_memory (s : machine) (r0 : Z) :
  R s R_R0 = Some r0 -> 0 <= r0 ->
  (forall a, r0 <= a < Z.of_nat (length (memory s)) -> mem s a <> Some 0) ->
  trap_puts s = Undefined.
Proof.
  intros Hr0 Hpos Hnz. unfold trap_puts.
  rewrite (bind_Ok _ _ s s r0) by (now apply load_reg_Ok).
  now apply puts_loop_runs_off.
Qed.

Lemma PUTS_without_zero_leaves_memory_witness :
  trap_puts (write_reg R_R0 0xFFFF (boot (place 0xFFFF [0x41] blank) []))
  = Undefined.
Proof.
  apply (PUTS_without_zero_leaves_memory
           (write_reg R_R0 0xFFFF (boot (place 0xFFFF [0x41] blank) []))
           0xFFFF); [reflexivity | lia |].
  intros a Ha.
  assert (Hlen : Z.of_nat
                   (length (memory
                      (write_reg R_R0 0xFFFF
                         (boot (place 0xFFFF [0x41] blank) [])))) = 0x10000)
    by (vm_compute; reflexivity).
  rewrite Hlen in Ha. assert (a = 0xFFFF) as -> by lia.
  assert (Hw : mem (write_reg R_R0 0xFFFF
                      (boot (place 0xFFFF [0x41] blank) [])) 0xFFFF
               = Some 0x41) by (vm_compute; reflexivity).
  rewrite Hw. discriminate.
Defined.

(** ** Well-formedness as an invariant of the loop *)

Lemma partial_bind {A B} (P : machine -> Prop) (m : M A)
    (Q : A -> machine -> Prop) (k : A -> M B) (T : B -> machine -> Prop)
    (E : machine -> Prop) :
  partial P m Q E -> (forall a, partial (Q a) (k a) T E) ->
  partial P (m ≫= k) T E.
Proof.
  intros Hm Hk s Hs. rewrite bind_eq. specialize (Hm s Hs).
  destruct (m s) as [a s1|s1|]; [exact (Hk a s1 Hm) | exact Hm | exact I].
Qed.

Lemma partial_assume {A} (P : machine -> Prop) (phi : Prop) (m : M A)
    (Q : A -> machine -> Prop) (E : machine -> Prop) :
  (phi -> partial P m Q E) -> partial (fun s => P s /\ phi) m Q E.
Proof. intros H s [Hs Hphi]. exact (H Hphi s Hs). Qed.

Lemma partial_if {A} (P : machine -> Prop) (b : bool) (m1 m2 : M A)
    (Q : A -> machine -> Prop) (E : machine -> Prop) :
  partial P m1 Q E -> partial P m2 Q E ->
  partial P (if b then m1 else m2) Q E.
Proof. now destruct b. Qed.

Lemma partial_of_hoare {A} (P : machine -> Prop) (m : M A)
    (Q : A -> machine -> Prop) (E : machine -> Prop) :
  hoare P m Q -> partial P m Q E.
Proof.
  intros H s Hs. destruct (H s Hs) as (a & s' & Hrun & Hq). now rewrite Hrun.
Qed.

(** The primitives on well-formed states. *)

Lemma pw_ret : partial well_formed (mret tt : M unit)
                 (fun _ => well_formed) well_formed.
Proof. intros s Hs. exact Hs. Qed.

Lemma pw_abort : partial well_formed (abort : M unit)
                   (fun _ => well_formed) well_formed.
Proof. intros s Hs. exact Hs. Qed.

Lemma pw_undefined : partial well_formed (undefined : M unit)
                       (fun _ => well_formed) well_formed.
Proof. intros s Hs. exact I. Qed.

Lemma pw_load_reg (i : Z) :
  partial well_formed (load_reg i)
    (fun v s => well_formed s /\ 0 <= v < 2 ^ 16) well_formed.
Proof.
  intros s Hs. unfold load_reg. destruct (i <? 0); [exact I|].
  destruct (reg s !! Z.to_nat i) as [v|] eqn:Hv; [|exact I].
  split; [exact Hs | exact (wf_R_word s i v Hs Hv)].
Qed.

Lemma pw_load_mem (a : Z) :
  partial well_formed (load_mem a)
    (fun v s => well_formed s /\ 0 <= v < 2 ^ 16) well_formed.
Proof.
  intros s Hs. unfold load_mem. destruct (a <? 0); [exact I|].
  destruct (memory s !! Z.to_nat a) as [v|] eqn:Hv; [|exact I].
  split; [exact Hs | exact (wf_mem_word s a v Hs Hv)].
Qed.

Lemma pw_store_reg (i v : Z) :
  0 <= v < 2 ^ 16 ->
  partial well_formed (store_reg i v) (fun _ => well_formed) well_formed.
Proof.
  intros Hv s Hs. unfold store_reg.
  destruct (in_bounds i (reg s)); [|exact I]. now apply wf_write_reg.
Qed.

Lemma pw_store_mem (a v : Z) :
  0 <= v < 2 ^ 16 ->
  partial well_formed (store_mem a v) (fun _ => well_formed) well_formed.
Proof.
  intros Hv s Hs. unfold store_mem.
  destruct (in_bounds a (memory s)); [|exact I]. now apply wf_write_mem.
Qed.

Lemma pw_key_ready :
  partial well_formed key_ready (fun _ => well_formed) well_formed.
Proof. intros s Hs. exact Hs. Qed.

Lemma pw_read_byte :
  partial well_formed read_byte
    (fun b s => well_formed s /\ 0 <= b < 2 ^ 16) well_formed.
Proof.
  intros s Hs.
  destruct (wf_read_byte s Hs) as (b & s' & Hrun & Hs' & Hb & _).
  rewrite Hrun. now split.
Qed.

Lemma pw_putc (b : Z) :
  partial well_formed (putc b) (fun _ => well_formed) well_formed.
Proof.
  intros s Hs. apply wf_unpack in Hs as (Hm & Hr & Hmw & Hrw & Hb).
  now apply wf_pack.
Qed.

Lemma pw_stop_running :
  partial well_formed stop_running (fun _ => well_formed) well_formed.
Proof.
  intros s Hs. apply wf_unpack in Hs as (Hm & Hr & Hmw & Hrw & Hb).
  now apply wf_pack.
Qed.

Ltac word_side :=
  first
    [ apply u16_range
    | assumption
    | lazymatch goal with
      | |- 0 <= field ?i ?k R_BITMASK < _ =>
          pose proof (field_reg_range i k); lia
      end
    | vm_compute; split; congruence ].

Ltac pw_step :=
  cbv beta;
  lazymatch goal with
  | |- partial (fun s => @?P s /\ ?phi) _ _ _ =>
      apply (partial_assume P phi); intros ?
  | |- partial _ (_ ≫= _) _ _ => eapply partial_bind; [|intros ?]
  | |- partial _ (if _ then _ else _) _ _ => apply partial_if
  | |- partial _ (mret _) _ _ => apply pw_ret
  | |- partial _ abort _ _ => apply pw_abort
  | |- partial _ undefined _ _ => apply pw_undefined
  | |- partial _ (load_reg _) _ _ => apply pw_load_reg
  | |- partial _ (load_mem _) _ _ => apply pw_load_mem
  | |- partial _ (store_reg _ _) _ _ => apply pw_store_reg; word_side
  | |- partial _ (store_mem _ _) _ _ => apply pw_store_mem; word_side
  | |- partial _ key_ready _ _ => apply pw_key_ready
  | |- partial _ read_byte _ _ => apply pw_read_byte
  | |- partial _ (putc _) _ _ => apply pw_putc
  | |- partial _ stop_running _ _ => apply pw_stop_running
  end.

Lemma pw_mem_read (a : Z) :
  partial well_formed (mem_read a)
    (fun v s => well_formed s /\ 0 <= v < 2 ^ 16) well_formed.
Proof. unfold mem_read. repeat pw_step. Qed.

Lemma pw_mem_write (a v : Z) :
  0 <= v < 2 ^ 16 ->
  partial well_formed (mem_write a v) (fun _ => well_formed) well_formed.
Proof. intros Hv. unfold mem_write. now apply pw_store_mem. Qed.

Lemma pw_update_flags (r : Z) :
  partial well_formed (update_flags r) (fun _ => well_formed) well_formed.
Proof. unfold update_flags. repeat pw_step. Qed.

Lemma pw_put_bytes (bs : list Z) :
  partial well_formed (put_bytes bs) (fun _ => well_formed) well_formed.
Proof. induction bs as [|b bs IH]; simpl; repeat pw_step. exact IH. Qed.

Lemma pw_puts_loop (left : nat) (c : Z) :
  partial well_formed (puts_loop left c) (fun _ => well_formed) well_formed.
Proof.
  revert c. induction left as [|left IH]; intros c; simpl; repeat pw_step.
  apply IH.
Qed.

Lemma pw_putsp_loop (left : nat) (c : Z) :
  partial well_formed (putsp_loop left c) (fun _ => well_formed) well_formed.
Proof.
  revert c. induction left as [|left IH]; intros c; simpl; repeat pw_step.
  apply IH.
Qed.

Ltac pw_more :=
  cbv beta;
  lazymatch goal with
  | |- partial (fun s => @?P s /\ ?phi) _ _ _ =>
      apply (partial_assume P phi); intros ?
  | |- partial _ (mem_read _) _ _ => apply pw_mem_read
  | |- partial _ (mem_write _ _) _ _ => apply pw_mem_write; word_side
  | |- partial _ (update_flags _) _ _ => apply pw_update_flags
  | |- partial _ (put_bytes _) _ _ => apply pw_put_bytes
  | |- partial _ (puts_loop _ _) _ _ => apply pw_puts_loop
  | |- partial _ (putsp_loop _ _) _ _ => apply pw_putsp_loop
  | |- _ => pw_step
  end.

Lemma pw_op_trap (instr : Z) :
  partial well_formed (op_trap instr) (fun _ => well_formed) well_formed.
Proof.
  unfold op_trap, trap_getc, trap_out, trap_puts, trap_in, trap_putsp,
    trap_halt.
  cbv zeta. repeat pw_more.
Qed.

Lemma pw_exec_instr (instr : Z) :
  partial well_formed (exec_instr instr) (fun _ => well_formed) well_formed.
Proof.
  unfold exec_instr, op_add, op_and, op_not, op_br, op_jmp, op_jsr, op_ld,
    op_ldi, op_ldr, op_lea, op_st, op_sti, op_str.
  cbv zeta.
  repeat lazymatch goal with
         | |- partial _ (op_trap _) _ _ => apply pw_op_trap
         | |- _ => pw_more
         end.
Qed.

Lemma pw_fetch :
  partial well_formed fetch
    (fun v s => well_formed s /\ 0 <= v < 2 ^ 16) well_formed.
Proof. unfold fetch. repeat pw_more. Qed.

Lemma pw_step_loop :
  partial well_formed step (fun _ => well_formed) well_formed.
Proof.
  unfold step. eapply partial_bind; [apply pw_fetch|]. intros instr.
  pw_more. apply pw_exec_instr.
Qed.

Lemma pw_run (n : nat) :
  partial well_formed (run n) (fun _ => well_formed) well_formed.
Proof.
  induction n as [|n IH]; simpl; [apply pw_ret|].
  intros s Hs. destruct (running s); [|exact Hs].
  revert s Hs.
  fold (partial well_formed (step;; run n) (fun _ => well_formed) well_formed).
  eapply partial_bind; [apply pw_step_loop | intros ?; exact IH].
Qed.

Lemma wf_boot (image input : list Z) :
  Z.of_nat (length image) = MEMORY_MAX ->
  forallb is_word image = true -> forallb is_byte input = true ->
  wf (boot image input) = true.
Proof. intros Hlen Hw Hb. now apply wf_pack. Qed.

(** X12. Every turn of the loop keeps the state well formed: [memory] keeps
    its 65536 entries and [reg] its ten, and every word in them, PC included,
    stays below 2^16.  So it is after any number of turns from the start, for
    an image of 65536 words and a keyboard delivering bytes. *)
Theorem loop_keeps_state_well_formed
    (image input : list Z) (n : nat) (s : machine) :
  (wf s = true ->
   match step s with
   | Ok _ s' => wf s' = true
   | Aborted s' => wf s' = true
   | Undefined => True
   end)
  /\ (Z.of_nat (length image) = MEMORY_MAX ->
      forallb is_word image = true -> forallb is_byte input = true ->
      match run n (boot image input) with
      | Ok _ s' =>
          wf s' = true /\ exists pc, R s' R_PC = Some pc /\ 0 <= pc <= 0xFFFF
      | Aborted s' => wf s' = true
      | Undefined => True
      end).
Proof.
  split; [apply pw_step_loop|].
  intros Hlen Hw Hb.
  pose proof (pw_run n (boot image input) (wf_boot image input Hlen Hw Hb))
    as Hrun.
  destruct (run n (boot image input)) as [[] s'|s'|]; try exact Hrun.
  split; [exact Hrun|].
  destruct (R_defined s' R_PC) as [pc Hpc].
  { rewrite (wf_reg_len s' Hrun). unfold R_PC. lia. }
  exists pc. split; [exact Hpc|].
  pose proof (wf_R_word s' R_PC pc Hrun Hpc). lia.
Qed.

Lemma loop_keeps_state_well_formed_witness :
  match step (boot (place 0x3000 [0x1021] blank) []) with
  | Ok _ s' => wf s' = true
  | Aborted s' => wf s' = true
  | Undefined => True
  end
  /\ match run 2 (boot blank []) with
     | Ok _ s' =>
         wf s' = true /\ exists pc, R s' R_PC = Some pc /\ 0 <= pc <= 0xFFFF
     | Aborted s' => wf s' = true
     | Undefined => True
     end.
Proof.
  destruct (loop_keeps_state_well_formed blank [] 2
              (boot (place 0x3000 [0x1021] blank) [])) as [Hstep Hrun].
  split.
  - apply Hstep. vm_compute. reflexivity.
  - apply Hrun; vm_compute; reflexivity.
Defined.

(** ** The cases that always go back to the loop *)

Lemma hoare_ret_wf :
  hoare well_formed (mret tt : M unit) (fun _ => well_formed).
Proof. intros s Hs. now exists tt, s. Qed.

Lemma hoare_update_flags_wf (r : Z) :
  0 <= r < 10 ->
  hoare well_formed (update_flags r) (fun _ => well_formed).
Proof.
  intros Hr s Hs. pose proof (wf_reg_len s Hs) as Hlen.
  destruct (R_defined s r) as [v Hv]; [lia|].
  exists tt, (write_reg R_COND (sign_flag v) s). split.
  - apply update_flags_Ok; [lia | exact Hv | exact (wf_R_word s r v Hs Hv)|].
    unfold R_COND. lia.
  - apply wf_write_reg; [exact Hs|].
    pose proof (sign_flag_is_flag v) as [-> | [-> | ->]];
      vm_compute; split; congruence.
Qed.

Lemma hoare_mem_write (a v : Z) :
  0 <= a < 2 ^ 16 -> 0 <= v < 2 ^ 16 ->
  hoare well_formed (mem_write a v) (fun _ => well_formed).
Proof.
  intros Ha Hv s Hs. pose proof (wf_mem_len s Hs) as Hlen.
  exists tt, (write_mem a v s).
  split; [apply store_mem_Ok; lia | now apply wf_write_mem].
Qed.

Ltac index_side :=
  first
    [ apply u16_range
    | assumption
    | lazymatch goal with
      | |- 0 <= field ?i ?k R_BITMASK < _ =>
          pose proof (field_reg_range i k); lia
      | |- 0 <= Z.land ?i R_BITMASK < _ =>
          pose proof (land_reg_range i); lia
      end
    | vm_compute; split; congruence ].

Ltac hoare_loop_step :=
  cbv beta;
  lazymatch goal with
  | |- hoare (fun s => @?P s /\ ?phi) _ _ =>
      apply (hoare_assume P phi); intros ?
  | |- hoare _ (_ ≫= _) _ => eapply hoare_bind; [|intros ?]
  | |- hoare _ (if _ then _ else _) _ => apply hoare_if
  | |- hoare _ (mret _) _ => apply hoare_ret_wf
  | |- hoare _ (load_reg _) _ => apply hoare_load_reg; index_side
  | |- hoare _ (mem_read _) _ => apply hoare_mem_read; index_side
  | |- hoare _ (mem_write _ _) _ => apply hoare_mem_write; index_side
  | |- hoare _ (store_reg _ _) _ => apply hoare_store_reg; index_side
  | |- hoare _ (update_flags _) _ => apply hoare_update_flags_wf; index_side
  end.

Lemma always_continues_cases (op : Z) :
  always_continues op = true ->
  op = OP_ADD \/ op = OP_AND \/ op = OP_NOT \/ op = OP_BR \/ op = OP_JMP
  \/ op = OP_JSR \/ op = OP_LD \/ op = OP_LDI \/ op = OP_LDR \/ op = OP_LEA
  \/ op = OP_ST \/ op = OP_STR.
Proof.
  unfold always_continues. rewrite !orb_true_iff, !Z.eqb_eq. tauto.
Qed.

Lemma hoare_exec_instr (instr : Z) :
  always_continues (Z.shiftr instr 12) = true ->
  hoare well_formed (exec_instr instr) (fun _ => well_formed).
Proof.
  intros Hop. apply always_continues_cases in Hop.
  unfold exec_instr. cbv zeta.
  destruct Hop as [H|[H|[H|[H|[H|[H|[H|[H|[H|[H|[H|H]]]]]]]]]]];
    rewrite H; simpl.
  - unfold op_add. cbv zeta. repeat hoare_loop_step.
  - unfold op_and. cbv zeta. repeat hoare_loop_step.
  - unfold op_not. cbv zeta. repeat hoare_loop_step.
  - unfold op_br. cbv zeta. repeat hoare_loop_step.
  - unfold op_jmp. cbv zeta. repeat hoare_loop_step.
  - unfold op_jsr. cbv zeta. repeat hoare_loop_step.
  - unfold op_ld. cbv zeta. repeat hoare_loop_step.
  - unfold op_ldi. cbv zeta. repeat hoare_loop_step.
  - unfold op_ldr. cbv zeta. repeat hoare_loop_step.
  - unfold op_lea. cbv zeta. repeat hoare_loop_step.
  - unfold op_st. cbv zeta. repeat hoare_loop_step.
  - unfold op_str. cbv zeta. repeat hoare_loop_step.
Qed.

(** X13. On a well-formed state the twelve opcodes other than STI, TRAP, RTI
    and the reserved one never subscript [memory] or [reg] outside their
    bounds and never abort: the instruction goes back to the loop, in a
    well-formed state. *)
Theorem masked_cases_always_continue (s : machine) (instr : Z) :
  wf s = true -> always_continues (Z.shiftr instr 12) = true ->
  exists s', exec_instr instr s = Ok tt s' /\ wf s' = true.
Proof.
  intros Hwf Hop.
  destruct (hoare_exec_instr instr Hop s Hwf) as ([] & s' & Hrun & Hs').
  now exists s'.
Qed.

Lemma masked_cases_always_continue_witness :
  exists s',
    exec_instr 0xA000 (boot (place 0x3000 [0xFE00] blank) [0x41]) = Ok tt s'
    /\ wf s' = true.
Proof.
  apply (masked_cases_always_continue
           (boot (place 0x3000 [0xFE00] blank) [0x41]) 0xA000);
    [vm_compute; reflexivity | reflexivity].
Defined.

(** ** What a case leaves alone *)

Lemma keeps_unchanged {A X} (f : machine -> X) (x : X) (m : M A) :
  (forall s, match m s with
             | Ok _ s' => f s' = f s
             | Aborted s' => f s' = f s
             | Undefined => True
             end) ->
  keeps (fun s => f s = x) m.
Proof.
  intros Hm s Hs. specialize (Hm s).
  destruct (m s) as [a s'|s'|]; [| |exact I]; congruence.
Qed.

Ltac keeps_frame prim :=
  repeat lazymatch goal with
         | |- keeps _ (_ ≫= _) => apply keeps_bind; [|intros ?]
         | |- keeps _ (if _ then _ else _) => apply keeps_if
         | |- keeps _ (mret _) => apply keeps_ret
         | |- keeps _ abort => apply keeps_abort
         | |- keeps _ undefined => apply keeps_undefined
         | |- keeps _ (load_reg _) => apply keeps_load_reg
         | |- keeps _ (load_mem _) => apply keeps_load_mem
         | |- keeps _ key_ready => apply keeps_key_ready
         | |- keeps _ _ => prim
         end.

Section OutsideReg.

Variable o : list Z * list Z * list Z * bool.

Lemma outside_store_reg (i v : Z) :
  keeps (fun s => outside_reg s = o) (store_reg i v).
Proof.
  apply keeps_unchanged. intros s. unfold store_reg.
  now destruct (in_bounds i (reg s)).
Qed.

Lemma outside_update_flags (r : Z) :
  keeps (fun s => outside_reg s = o) (update_flags r).
Proof. unfold update_flags. keeps_frame ltac:(apply outside_store_reg). Qed.

Lemma outside_register_case (instr : Z) :
  register_only (Z.shiftr instr 12) = true ->
  keeps (fun s => outside_reg s = o) (exec_instr instr).
Proof.
  unfold register_only. rewrite !orb_true_iff, !Z.eqb_eq.
  intros Hop. unfold exec_instr. cbv zeta.
  destruct Hop as [[[[[[H|H]|H]|H]|H]|H]|H]; rewrite H; simpl.
  - unfold op_add. cbv zeta.
    keeps_frame ltac:(first [apply outside_store_reg | apply outside_update_flags]).
  - unfold op_and. cbv zeta.
    keeps_frame ltac:(first [apply outside_store_reg | apply outside_update_flags]).
  - unfold op_not. cbv zeta.
    keeps_frame ltac:(first [apply outside_store_reg | apply outside_update_flags]).
  - unfold op_br. cbv zeta.
    keeps_frame ltac:(first [apply outside_store_reg | apply outside_update_flags]).
  - unfold op_jmp. cbv zeta.
    keeps_frame ltac:(first [apply outside_store_reg | apply outside_update_flags]).
  - unfold op_jsr. cbv zeta.
    keeps_frame ltac:(first [apply outside_store_reg | apply outside_update_flags]).
  - unfold op_lea. cbv zeta.
    keeps_frame ltac:(first [apply outside_store_reg | apply outside_update_flags]).
Qed.

End OutsideReg.

Lemma register_only_continues (op : Z) :
  register_only op = true -> always_continues op = true.
Proof.
  unfold register_only, always_continues.
  rewrite !orb_true_iff, !Z.eqb_eq. tauto.
Qed.

(** X14. ADD, AND, NOT, BR, JMP, JSR and LEA work on [reg] alone: on a
    well-formed state the instruction goes back to the loop with [memory],
    the pending keyboard input, the console output and the loop variable as
    they were. *)
Theorem register_cases_leave_memory_alone (s : machine) (instr : Z) :
  wf s = true -> register_only (Z.shiftr instr 12) = true ->
  exists s',
    exec_instr instr s = Ok tt s'
    /\ memory s' = memory s /\ stdin s' = stdin s
    /\ stdout s' = stdout s /\ running s' = running s.
Proof.
  intros Hwf Hop.
  destruct (hoare_exec_instr instr (register_only_continues _ Hop) s Hwf)
    as ([] & s' & Hrun & _).
  exists s'. split; [exact Hrun|].
  pose proof (outside_register_case (outside_reg s) instr Hop s eq_refl) as H.
  rewrite Hrun in H. unfold outside_reg in H.
  injection H as -> -> -> ->. now repeat split.
Qed.

Lemma register_cases_leave_memory_alone_witness :
  exists s',
    exec_instr 0x927F (boot (place 0x3000 [0x927F] blank) [0x41]) = Ok tt s'
    /\ memory s' = memory (boot (place 0x3000 [0x927F] blank) [0x41])
    /\ stdin s' = [0x41] /\ stdout s' = [] /\ running s' = true.
Proof.
  apply (register_cases_leave_memory_alone
           (boot (place 0x3000 [0x927F] blank) [0x41]) 0x927F);
    [vm_compute; reflexivity | reflexivity].
Defined.

Section RegAndConsole.

Variable x : list Z * list Z * bool.

Lemma rc_store_mem (a v : Z) :
  keeps (fun s => reg_and_console s = x) (store_mem a v).
Proof.
  apply keeps_unchanged. intros s. unfold store_mem.
  now destruct (in_bounds a (memory s)).
Qed.

Lemma rc_read_byte : keeps (fun s => reg_and_console s = x) read_byte.
Proof.
  apply keeps_unchanged. intros s. unfold read_byte. now destruct (stdin s).
Qed.

Lemma rc_mem_read (a : Z) :
  keeps (fun s => reg_and_console s = x) (mem_read a).
Proof.
  unfold mem_read.
  keeps_frame ltac:(first [apply rc_store_mem | apply rc_read_byte]).
Qed.

Lemma rc_mem_write (a v : Z) :
  keeps (fun s => reg_and_console s = x) (mem_write a v).
Proof. unfold mem_write. apply rc_store_mem. Qed.

Lemma rc_store_case (instr : Z) :
  is_store (Z.shiftr instr 12) = true ->
  keeps (fun s => reg_and_console s = x) (exec_instr instr).
Proof.
  unfold is_store. rewrite !orb_true_iff, !Z.eqb_eq.
  intros Hop. unfold exec_instr. cbv zeta.
  destruct Hop as [[H|H]|H]; rewrite H; simpl.
  - unfold op_st. cbv zeta.
    keeps_frame ltac:(first [apply rc_mem_read | apply rc_mem_write]).
  - unfold op_sti. cbv zeta.
    keeps_frame ltac:(first [apply rc_mem_read | apply rc_mem_write]).
  - unfold op_str. cbv zeta.
    keeps_frame ltac:(first [apply rc_mem_read | apply rc_mem_write]).
Qed.

End RegAndConsole.

(** X15. A store (ST, STI, STR) never changes a register, COND included, nor
    the console output or the loop variable, however it ends; and on a
    well-formed state ST and STR do go back to the loop. *)
Theorem stores_leave_registers_alone (s : machine) (instr : Z) :
  is_store (Z.shiftr instr 12) = true ->
  match exec_instr instr s with
  | Ok _ s' | Aborted s' =>
      reg s' = reg s /\ stdout s' = stdout s /\ running s' = running s
  | Undefined => True
  end
  /\ (wf s = true -> Z.shiftr instr 12 <> OP_STI ->
      exists s', exec_instr instr s = Ok tt s').
Proof.
  intros Hop. split.
  - pose proof (rc_store_case (reg_and_console s) instr Hop s eq_refl) as H.
    destruct (exec_instr instr s) as [a s'|s'|]; [| |exact I];
      unfold reg_and_console in H; injection H as -> -> ->; now repeat split.
  - intros Hwf Hne.
    assert (Hc : always_continues (Z.shiftr instr 12) = true).
    { unfold is_store in Hop. unfold always_continues.
      rewrite !orb_true_iff, !Z.eqb_eq in *. tauto. }
    destruct (hoare_exec_instr instr Hc s Hwf) as ([] & s' & Hrun & _).
    now exists s'.
Qed.

Lemma stores_leave_registers_alone_witness :
  exists s',
    exec_instr 0x7280 str_input = Ok tt s'
    /\ reg s' = reg str_input /\ stdout s' = stdout str_input
    /\ running s' = running str_input.
Proof.
  destruct (stores_leave_registers_alone str_input 0x7280) as [Hsame Hrun];
    [reflexivity|].
  destruct Hrun as [s' Hrun]; [vm_compute; reflexivity | discriminate|].
  exists s'. split; [exact Hrun|]. now rewrite Hrun in Hsame.
Defined.
